(** * Kepler's Chaos: hand-driven particle field

    A shallow embedding of the gesture extractor ([visionService.detectHand]),
    the animation loop of [App.tsx], and the particle generator, the
    per-frame smoothing and the vertex shader of [SaturnParticles.tsx].

    Numbers: JavaScript numbers (IEEE doubles), [Float32Array] cells and
    GLSL floats are idealised as real numbers; rounding is not modelled.
    [Math.sqrt], [Math.max], [Math.min], [sin], [cos] are the functions of
    the same name on [R]; [Math.pow (a, 2)] is [a ^ 2]. *)

From Stdlib Require Import Reals Lra Lia List Arith Bool.
Import ListNotations.

Local Open Scope R_scope.

(** ** Gesture extraction: [services/visionService.ts] *)

Module VisionService.

(** A landmark of the hand model; the extractor reads [x] and [y] only. *)
Record NormalizedLandmark : Type := { x : R; y : R }.

(** [result.landmarks]: one landmark list per detected hand, or absent. *)
Definition HandLandmarkerResult : Type :=
  option (list (list NormalizedLandmark)).

Record HTMLVideoElement : Type := { currentTime : R; readyState : nat }.

(** The landmark detector is a black box: [detectForVideo (video, ms)]. *)
Definition HandLandmarker : Type :=
  HTMLVideoElement -> R -> HandLandmarkerResult.

(** The two module-level variables [handLandmarker] and [lastVideoTime]. *)
Record State : Type :=
  { handLandmarker : option HandLandmarker; lastVideoTime : R }.

Definition initial : State :=
  {| handLandmarker := None; lastVideoTime := -1 |}.

(** The detector has been created: [handLandmarker] is defined. *)
Definition ready (st : State) : Prop := handLandmarker st <> None.

(** The guard of line 45 is false: the frame's timestamp has not advanced
    since the last call that consulted the detector. *)
Definition repeated (st : State) (video : HTMLVideoElement) : Prop :=
  currentTime video = lastVideoTime st.

(** The frame is fresh and the detector reports a hand whose landmark
    list is [landmarks]. *)
Definition detects (st : State) (video : HTMLVideoElement) (now : R)
           (landmarks : list NormalizedLandmark) : Prop :=
  ~ repeated st video /\
  exists hl rest, handLandmarker st = Some hl /\
                  hl video now = Some (landmarks :: rest).

(** A hand of the model has 21 landmarks, numbered 0 to 20. *)
Definition wellFormed (landmarks : list NormalizedLandmark) : Prop :=
  (20 < length landmarks)%nat.

(** The fingertip landmarks: thumb, index, middle, ring, pinky. *)
Definition tips : list nat := [4; 8; 12; 16; 20]%nat.

(** [initializeVision]: the detector created from the model file is [hl]. *)
Definition initializeVision (hl : HandLandmarker) (st : State) : State :=
  {| handLandmarker := Some hl; lastVideoTime := lastVideoTime st |}.

Record HandReading : Type := { openness : R; isDetected : bool }.

Definition notDetected : HandReading :=
  {| openness := 0; isDetected := false |}.

Definition getDist (p1 p2 : NormalizedLandmark) : R :=
  sqrt ((x p1 - x p2) ^ 2 + (y p1 - y p2) ^ 2).

Definition minVal : R := 0.2.
Definition maxVal : R := 0.55.

(** Lines 65-71: the mean of the five fingertip-to-wrist distances. *)
Definition avgDist (wrist thumbTip indexTip middleTip ringTip pinkyTip
                    : NormalizedLandmark) : R :=
  (getDist thumbTip wrist + getDist indexTip wrist
   + getDist middleTip wrist + getDist ringTip wrist
   + getDist pinkyTip wrist) / 5.

(** Lines 78-79. *)
Definition normalize (avg : R) : R :=
  let openness := (avg - minVal) / (maxVal - minVal) in
  Rmax 0 (Rmin 1 openness).

(** Lines 55-79 on one hand. Reading a coordinate of a landmark that the
    list does not have throws a [TypeError]: the result is [None]. *)
Definition opennessOf (landmarks : list NormalizedLandmark) : option R :=
  match nth_error landmarks 0, nth_error landmarks 4,
        nth_error landmarks 8, nth_error landmarks 12,
        nth_error landmarks 16, nth_error landmarks 20 with
  | Some wrist, Some thumbTip, Some indexTip, Some middleTip,
    Some ringTip, Some pinkyTip =>
      Some (normalize
              (avgDist wrist thumbTip indexTip middleTip ringTip pinkyTip))
  | _, _, _, _, _, _ => None
  end.

(** The quantity as the specification words it: the Euclidean distance
    from each of the five fingertips to the wrist, averaged. *)
Definition meanTipDistance (landmarks : list NormalizedLandmark) : R :=
  let origin := {| x := 0; y := 0 |} in
  let wrist := nth 0 landmarks origin in
  fold_right Rplus 0
    (map (fun k => let tip := nth k landmarks origin in
                   sqrt ((x tip - x wrist) * (x tip - x wrist)
                         + (y tip - y wrist) * (y tip - y wrist)))
         tips) / 5.

(** [detectHand (video)], with [performance.now ()] read as [now]. The
    first component is the returned object, [None] when the call throws;
    the second is the module state after the call. *)
Definition detectHand (st : State) (video : HTMLVideoElement) (now : R)
  : option HandReading * State :=
  match handLandmarker st with
  | None => (Some notDetected, st)
  | Some hl =>
      if Req_dec_T (currentTime video) (lastVideoTime st)
      then (Some notDetected, st)
      else
        let result := hl video now in
        let st' := {| handLandmarker := Some hl;
                      lastVideoTime := currentTime video |} in
        match result with
        | Some (landmarks :: _) =>
            match opennessOf landmarks with
            | Some o => (Some {| openness := o; isDetected := true |}, st')
            | None => (None, st')
            end
        | _ => (Some notDetected, st')
        end
  end.




(** Moving the whole hand in the image by [(dx, dy)], and magnifying the
    image by [k] (a hand nearer to the camera), used to state how the
    reading reacts. *)
Definition translate (dx dy : R) (p : NormalizedLandmark)
  : NormalizedLandmark :=
  {| x := x p + dx; y := y p + dy |}.

Definition magnify (k : R) (p : NormalizedLandmark) : NormalizedLandmark :=
  {| x := k * x p; y := k * y p |}.

(** The detector finds no hand in any frame. *)
Definition blind (hl : HandLandmarker) : Prop :=
  forall video now, hl video now = None \/ hl video now = Some [].

(** The detector finds the hand [landmarks] first in every frame. *)
Definition sees (hl : HandLandmarker)
           (landmarks : list NormalizedLandmark) : Prop :=
  forall video now, exists rest, hl video now = Some (landmarks :: rest).

End VisionService.

(** ** The animation loop: [App.tsx] *)

Module App.

(** The React state [openness] together with the state of the vision
    module that [loop] calls into. *)
Record State : Type :=
  { openness : R; vision : VisionService.State }.

Definition initial : State :=
  {| openness := 0; vision := VisionService.initial |}.

(** Line 46, the function handed to [setOpenness]. *)
Definition updater (detectedOpenness : R) (isDetected : bool) (prev : R)
  : R :=
  if isDetected then detectedOpenness else prev * 0.95.

(** One run of [loop]. [videoRef] is [videoRef.current]; [None] as result
    is an exception escaping from [detectHand], after which the loop is
    not scheduled again. *)
Definition loop (app : State)
           (videoRef : option VisionService.HTMLVideoElement) (now : R)
  : option State :=
  match videoRef with
  | Some video =>
      if Nat.eqb (VisionService.readyState video) 4
      then
        match VisionService.detectHand (vision app) video now with
        | (Some rd, vs) =>
            Some {| openness :=
                      updater (VisionService.openness rd)
                              (VisionService.isDetected rd) (openness app);
                    vision := vs |}
        | (None, _) => None
        end
      else Some app
  | None => Some app
  end.

(** [AppState] of [types.ts]. *)
Inductive AppState : Type := IDLE | LOADING | RUNNING | ERROR.

(** What [startCamera] (lines 18-39) meets: [initializeVision] resolves
    with a detector or rejects, [getUserMedia] resolves or rejects,
    [videoRef.current] is set or not, and [onloadeddata] fires or not. *)
Record Camera : Type :=
  { visionCreated : option VisionService.HandLandmarker;
    streamGranted : bool;
    videoMounted : bool;
    dataLoaded : bool }.

(** Where [startCamera] leaves the application: the last [appState] set,
    the vision module's state, and whether [loop] has been started. *)
Record Session : Type :=
  { appState : AppState;
    visionState : VisionService.State;
    looping : bool }.

Definition startCamera (vs : VisionService.State) (env : Camera) : Session :=
  match visionCreated env with
  | None => {| appState := ERROR; visionState := vs; looping := false |}
  | Some hl =>
      let vs' := VisionService.initializeVision hl vs in
      if streamGranted env
      then
        if videoMounted env && dataLoaded env
        then {| appState := RUNNING; visionState := vs'; looping := true |}
        else {| appState := LOADING; visionState := vs'; looping := false |}
      else {| appState := ERROR; visionState := vs'; looping := false |}
  end.

(** Values computed from the state when the component renders. *)

(** Lines 109-111 and 183-184: [openness > 0.8]. *)
Definition critical (openness : R) : bool :=
  if Rlt_dec 0.8 openness then true else false.

(** Line 84, the opacity of the [Noise] effect. *)
Definition noiseOpacity (openness : R) : R :=
  if critical openness then 0.2 else 0.05.

(** Line 92, [autoRotate] of the orbit controls. *)
Definition autoRotate (st : AppState) (openness : R) : bool :=
  match st with
  | RUNNING => if Rlt_dec openness 0.2 then true else false
  | _ => false
  end.

(** [Math.round]: the nearest integer, halves rounded up. *)
Definition Math_round (v : R) : Z := Int_part (v + 0.5).

(** Line 114, the percentage shown in the status indicator. *)
Definition percent (openness : R) : Z := Math_round (openness * 100).

(** [m] further runs of [loop] on the same video element state. *)
Fixpoint loops (m : nat) (app : State)
         (videoRef : option VisionService.HTMLVideoElement) (now : R)
  : option State :=
  match m with
  | O => Some app
  | S m' =>
      match loop app videoRef now with
      | Some app' => loops m' app' videoRef now
      | None => None
      end
  end.

End App.

(** ** [Math.random]

    The random source is the sequence of numbers that successive calls of
    [Math.random ()] return; a computation threads the number of calls made
    so far. *)

Module Random.

Definition Source : Type := nat -> R.

Definition M (A : Type) : Type := Source -> nat -> A * nat.

Definition ret {A : Type} (a : A) : M A := fun _ n => (a, n).

Definition bind {A B : Type} (c : M A) (k : A -> M B) : M B :=
  fun src n => let (a, n') := c src n in k a src n'.

Definition random : M R := fun src n => (src n, S n).

(** What [Math.random] promises: a number in [0, 1). *)
Definition in_unit (src : Source) : Prop :=
  forall n : nat, 0 <= src n < 1.

End Random.

Declare Scope random_scope.
Delimit Scope random_scope with random.
Notation "x <- c ;; k" := (Random.bind c (fun x => k))
  (at level 61, c at next level, right associativity) : random_scope.

(** ** The particle field: [components/SaturnParticles.tsx] *)

Module SaturnParticles.

Record vec3 : Type := { vx : R; vy : R; vz : R }.

Definition vadd (a b : vec3) : vec3 :=
  {| vx := vx a + vx b; vy := vy a + vy b; vz := vz a + vz b |}.

Definition vscale (a : vec3) (k : R) : vec3 :=
  {| vx := vx a * k; vy := vy a * k; vz := vz a * k |}.

(** *** GLSL built-ins used by the vertex shader *)

Definition clamp (x lo hi : R) : R := Rmin (Rmax x lo) hi.

Definition smoothstep (edge0 edge1 x : R) : R :=
  let t := clamp ((x - edge0) / (edge1 - edge0)) 0 1 in
  t * t * (3 - 2 * t).

Definition mix (a b : vec3) (w : R) : vec3 :=
  vadd (vscale a (1 - w)) (vscale b w).

(** *** Per-particle attributes, one cell of each buffer *)

Record Color : Type := { r : R; g : R; b : R }.

Record Attributes : Type :=
  { size : R; speed : R; orbitRadius : R; angleOffset : R;
    randomness : R; color : Color }.

(** *** The vertex shader, lines 27-74 *)

Definition noiseVec (t idx : R) : vec3 :=
  {| vx := sin (t * 10 + idx);
     vy := cos (t * 12 + idx * 2);
     vz := sin (t * 8 + idx * 3) |}.

Definition orbitSpeed (a : Attributes) : R :=
  speed a / sqrt (orbitRadius a + 0.1).

Definition currentAngle (a : Attributes) (uTime : R) : R :=
  angleOffset a + orbitSpeed a * uTime * 0.5.

Definition orbitalPos (a : Attributes) (uTime : R) : vec3 :=
  let x := cos (currentAngle a uTime) * orbitRadius a in
  let z := sin (currentAngle a uTime) * orbitRadius a in
  let y := sin (currentAngle a uTime * 2 + angleOffset a)
           * (0.1 * orbitRadius a) in
  {| vx := x; vy := y; vz := z |}.

Definition chaosThreshold : R := 0.7.

Definition chaosFactor (uExpansion : R) : R :=
  smoothstep chaosThreshold 1 uExpansion.

Definition chaosPos (a : Attributes) (uTime uExpansion : R) : vec3 :=
  vadd (orbitalPos a uTime)
       (vscale (noiseVec uTime (randomness a)) (uExpansion * 3)).

Definition finalPos (a : Attributes) (uTime uExpansion : R) : vec3 :=
  mix (orbitalPos a uTime) (chaosPos a uTime uExpansion)
      (chaosFactor uExpansion).

Definition systemScale (uExpansion : R) : R := 1 + uExpansion * 5.

(** The point handed to [modelViewMatrix]: [finalPos * systemScale]. *)
Definition position (a : Attributes) (uTime uExpansion : R) : vec3 :=
  vscale (finalPos a uTime uExpansion) (systemScale uExpansion).


(** *** The population, lines 119-195 *)

#[warnings="-abstract-large-number"]
Definition COUNT : nat := 15000.

Definition isCore (i : nat) : bool :=
  if Rlt_dec (INR i) (INR COUNT * 0.2) then true else false.

(** [THREE.Color.lerpColors]. *)
Definition lerpColors (c1 c2 : Color) (alpha : R) : Color :=
  {| r := r c1 + (r c2 - r c1) * alpha;
     g := g c1 + (g c2 - g c1) * alpha;
     b := b c1 + (b c2 - b c1) * alpha |}.

Section Population.

(** The three colours built by [new THREE.Color (hex)]. *)
Variables colorCore colorRingInner colorRingOuter : Color.

Local Open Scope random_scope.

(** Lines 163-165. *)
Definition ringRad (band : R) : Random.M R :=
  if Rlt_dec band 0.3
  then (u <- Random.random ;; Random.ret (4 + u * 2))
  else if Rlt_dec band 0.4
       then (u <- Random.random ;; Random.ret (6.5 + u * 0.5))
       else (u <- Random.random ;; Random.ret (7 + u * 3)).

(** One iteration of the loop, lines 136-183: the cells written at
    index [i] of [sz], [spd], [rad], [off], [rnd] and [col]. *)
Definition particle (i : nat) : Random.M Attributes :=
  if isCore i
  then
    u1 <- Random.random ;;
    let theta := u1 * PI * 2 in
    u2 <- Random.random ;;
    let phi := acos (u2 * 2 - 1) in
    u3 <- Random.random ;;
    let coreRad := u3 * 2.5 in
    u4 <- Random.random ;;
    u5 <- Random.random ;;
    u6 <- Random.random ;;
    u7 <- Random.random ;;
    Random.ret {| size := u5 * 0.5 + 0.5; speed := 0.5 + u4 * 0.5;
                  orbitRadius := coreRad; angleOffset := u6 * PI * 2;
                  randomness := u7; color := colorCore |}
  else
    band <- Random.random ;;
    radius <- ringRad band ;;
    u3 <- Random.random ;;
    u4 <- Random.random ;;
    u5 <- Random.random ;;
    Random.ret {| size := u3 * 0.3 + 0.2; speed := 2;
                  orbitRadius := radius; angleOffset := u4 * PI * 2;
                  randomness := u5;
                  color := lerpColors colorRingInner colorRingOuter
                                      ((radius - 4) / 6) |}.

(** [for (let i = from; i < from + n; i++)]. *)
Fixpoint particles (n from : nat) : Random.M (list Attributes) :=
  match n with
  | O => Random.ret []
  | S n' =>
      a <- particle from ;;
      rest <- particles n' (S from) ;;
      Random.ret (a :: rest)
  end.

Definition generate : Random.M (list Attributes) := particles COUNT 0.

End Population.

(** The number of calls of [Math.random] made when iteration [i] starts:
    a core iteration makes seven calls, a ring iteration five. *)
Fixpoint drawsBefore (i : nat) : nat :=
  match i with
  | O => O
  | S j => (drawsBefore j + (if isCore j then 7 else 5))%nat
  end.

(** The number of calls iteration [i] makes. *)
Definition draws (i : nat) : nat := if isCore i then 7%nat else 5%nat.

(** *** Per-frame smoothing, lines 197-216 *)

(** [THREE.MathUtils.lerp]. *)
Definition lerp (x y t : R) : R := (1 - t) * x + t * y.

Record Uniforms : Type := { uTime : R; uExpansion : R }.

Definition uniforms : Uniforms := {| uTime := 0; uExpansion := 0 |}.

(** The [useFrame] callback: [meshRef] tells whether [meshRef.current] is
    set, [openness] is the component's prop, [elapsed] the clock. *)
Definition useFrame (meshRef : bool) (openness elapsed : R) (u : Uniforms)
  : Uniforms :=
  if meshRef
  then {| uTime := elapsed;
          uExpansion := lerp (uExpansion u) openness 0.1 |}
  else u.

(** *** The rest of the vertex shader, lines 21-24 and 74-76 *)

Record vec2 : Type := { ux : R; uy : R }.

Definition dot (a b : vec2) : R := ux a * ux b + uy a * uy b.

(** GLSL [fract]: [v - floor (v)]. *)
Definition fract (v : R) : R := frac_part v.

Definition random (st : vec2) : R :=
  fract (sin (dot st {| ux := 12.9898; uy := 78.233 |}) * 43758.5453123).


(** *** The fragment shader, lines 85-107 *)

Definition length2 (v : vec2) : R := sqrt (ux v * ux v + uy v * uy v).

(** The distance of a point of the sprite from the sprite's centre, the
    [dist] of the fragment shader. *)
Definition radial (coord : vec2) : R :=
  length2 {| ux := ux coord - 0.5; uy := uy coord - 0.5 |}.

Definition scaleColor (c : Color) (k : R) : Color :=
  {| r := r c * k; g := g c * k; b := b c * k |}.

Definition mixColor (c1 c2 : Color) (w : R) : Color :=
  {| r := r c1 * (1 - w) + r c2 * w;
     g := g c1 * (1 - w) + g c2 * w;
     b := b c1 * (1 - w) + b c2 * w |}.

Record Fragment : Type := { rgb : Color; alpha : R }.

(** [main] of the fragment shader; [None] is [discard]. *)
Definition fragment (gl_PointCoord : vec2) (vColor : Color) (vExpansion : R)
  : option Fragment :=
  let center := {| ux := ux gl_PointCoord - 0.5;
                   uy := uy gl_PointCoord - 0.5 |} in
  let dist := length2 center in
  if Rlt_dec 0.5 dist then None
  else
    let alpha := 1 - smoothstep 0.3 0.5 dist in
    let brightness := 0.6 + vExpansion * 2 in
    let finalColor := scaleColor vColor brightness in
    let finalColor :=
      if Rlt_dec 0.9 vExpansion
      then mixColor finalColor {| r := 1; g := 1; b := 1 |} 0.2
      else finalColor in
    Some {| rgb := finalColor; alpha := alpha |}.

End SaturnParticles.

(** ** The background stars: [components/StarField.tsx] *)

Module StarField.

Local Open Scope random_scope.

(** Lines 11-13: [n] cells filled with [(Math.random () - 0.5) * 100]. *)
Fixpoint fill (n : nat) : Random.M (list R) :=
  match n with
  | O => Random.ret []
  | S n' =>
      u <- Random.random ;;
      rest <- fill n' ;;
      Random.ret ((u - 0.5) * 100 :: rest)
  end.

(** The [Float32Array (3000)] handed to [Points] with stride 3. *)
Definition sphere : Random.M (list R) := fill 3000.

(** [rotation.x] and [rotation.y] of the points object. *)
Record Rotation : Type := { rotationX : R; rotationY : R }.

(** The [useFrame] callback, lines 15-20; [ref] is [ref.current]. *)
Definition useFrame (ref : option Rotation) (delta : R) : option Rotation :=
  match ref with
  | Some rot =>
      Some {| rotationX := rotationX rot - delta / 50;
              rotationY := rotationY rot - delta / 60 |}
  | None => None
  end.

(** The callback run once per frame, with the frame times [deltas]. *)
Definition frames (ref : option Rotation) (deltas : list R)
  : option Rotation :=
  fold_left useFrame deltas ref.

End StarField.

(** ** The signal path as one machine

    [App] holds [openness], [SaturnParticles] holds [uExpansion], the scalar
    the shader reads. Both callbacks run once per display refresh: a tick
    is one run of [loop] followed by one run of [useFrame] that sees the
    updated prop. *)

Module Signal.

Record State : Type :=
  { app : App.State; uniforms : SaturnParticles.Uniforms }.

Definition initial : State :=
  {| app := App.initial; uniforms := SaturnParticles.uniforms |}.

(** What one display refresh brings from outside. *)
Record Input : Type :=
  { videoRef : option VisionService.HTMLVideoElement;
    now : R; meshRef : bool; elapsed : R }.

Definition tick (s : State) (i : Input) : option State :=
  match App.loop (app s) (videoRef i) (now i) with
  | Some a =>
      Some {| app := a;
              uniforms := SaturnParticles.useFrame
                            (meshRef i) (App.openness a) (elapsed i)
                            (uniforms s) |}
  | None => None
  end.

Fixpoint run (s : State) (inputs : list Input) : option State :=
  match inputs with
  | [] => Some s
  | i :: rest =>
      match tick s i with
      | Some s' => run s' rest
      | None => None
      end
  end.

(** The two scalars of a state. *)
Definition openness (s : State) : R := App.openness (app s).
Definition expansion (s : State) : R :=
  SaturnParticles.uExpansion (uniforms s).

(** Every tick of [inputs] brings a ready video whose timestamp differs
    from the one before it ([last] for the first), with the mesh mounted. *)
Fixpoint fresh (last : R) (inputs : list Input) : Prop :=
  match inputs with
  | [] => True
  | i :: rest =>
      exists video,
        videoRef i = Some video
        /\ VisionService.readyState video = 4%nat
        /\ VisionService.currentTime video <> last
        /\ meshRef i = true
        /\ fresh (VisionService.currentTime video) rest
  end.

(** Every tick of [inputs], run from [s], is a tick without a reading:
    the video is ready, so [loop] calls [detectHand], which reports no
    hand (no detector, a frame already seen, or no hand found), and the
    mesh is mounted, so [useFrame] updates the uniform. *)
Fixpoint quiet (s : State) (inputs : list Input) : Prop :=
  match inputs with
  | [] => True
  | i :: rest =>
      (exists video,
          videoRef i = Some video
          /\ VisionService.readyState video = 4%nat
          /\ fst (VisionService.detectHand (App.vision (app s)) video (now i))
             = Some VisionService.notDetected)
      /\ meshRef i = true
      /\ match tick s i with
         | Some s' => quiet s' rest
         | None => False
         end
  end.

(** The mesh is mounted in every tick of [inputs]. *)
Definition mounted (inputs : list Input) : Prop :=
  Forall (fun i => meshRef i = true) inputs.

End Signal.

(** The same machine seen from the readings: what [loop] and [useFrame] do
    to the two scalars once [detectHand] has answered [rd]. *)

Module Smoother.

Record State : Type := { openness : R; uExpansion : R }.

Definition initial : State := {| openness := 0; uExpansion := 0 |}.

Definition tick (s : State) (rd : VisionService.HandReading) : State :=
  let o := App.updater (VisionService.openness rd)
                       (VisionService.isDetected rd) (openness s) in
  {| openness := o;
     uExpansion := SaturnParticles.lerp (uExpansion s) o 0.1 |}.

Definition run (s : State) (rds : list VisionService.HandReading) : State :=
  fold_left tick rds s.

(** A reading with raw value [r], and the absence of one. *)
Definition reading (r : R) : VisionService.HandReading :=
  {| VisionService.openness := r; VisionService.isDetected := true |}.

Definition noReading : VisionService.HandReading :=
  VisionService.notDetected.

(** [k] consecutive ticks without a reading. *)
Definition decays (k : nat) (s : State) : State :=
  run s (repeat noReading k).

(** Both scalars lie in [0, 1]. *)
Definition inRange (s : State) : Prop :=
  0 <= openness s <= 1 /\ 0 <= uExpansion s <= 1.

(** A reading that [detectHand] can return: its value is in [0, 1]
    whenever a hand was detected. *)
Definition valid (rd : VisionService.HandReading) : Prop :=
  VisionService.isDetected rd = true ->
  0 <= VisionService.openness rd <= 1.

Definition of_signal (s : Signal.State) : State :=
  {| openness := Signal.openness s; uExpansion := Signal.expansion s |}.

End Smoother.

(** ** Concrete inputs used to exercise the model *)

Module Sample.

Import VisionService.

(** A hand spread wide: the wrist at the origin and every other landmark
    at distance 1 from it. *)
Definition openHand : list NormalizedLandmark :=
  {| x := 0; y := 0 |} :: repeat {| x := 1; y := 0 |} 20.

(** A detector that sees [openHand] in every frame. *)
Definition seesOpenHand : HandLandmarker := fun _ _ => Some [openHand].

Definition video0 : HTMLVideoElement :=
  {| currentTime := 0; readyState := 4 |}.

(** The frame that follows [video0]. *)
Definition video1 : HTMLVideoElement :=
  {| currentTime := 1 / 30; readyState := 4 |}.

(** The detector is loaded and no frame has been processed yet. *)
Definition loaded : State :=
  initializeVision seesOpenHand initial.

(** The detector is loaded and has already processed [video0]. *)
Definition seen0 : State :=
  {| handLandmarker := Some seesOpenHand; lastVideoTime := 0 |}.

(** The application with a fully open hand on screen, [video0] seen. *)
Definition appOpen : App.State :=
  {| App.openness := 1; App.vision := seen0 |}.

Definition half : Smoother.State :=
  {| Smoother.openness := 0.5; Smoother.uExpansion := 0.5 |}.

(** A random source that always answers one half. *)
Definition halves : Random.Source := fun _ => 0.5.

Definition white : SaturnParticles.Color :=
  {| SaturnParticles.r := 1; SaturnParticles.g := 1;
     SaturnParticles.b := 1 |}.

Definition black : SaturnParticles.Color :=
  {| SaturnParticles.r := 0; SaturnParticles.g := 0;
     SaturnParticles.b := 0 |}.

(** A hand seen with only five landmarks. *)
Definition stub : list NormalizedLandmark :=
  repeat {| x := 0; y := 0 |} 5.

Definition seesStub : HandLandmarker := fun _ _ => Some [stub].

Definition seesNothing : HandLandmarker := fun _ _ => Some [].

(** One tick on [video0] and one on [video1], mesh mounted. *)
Definition tick0 : Signal.Input :=
  {| Signal.videoRef := Some video0; Signal.now := 0;
     Signal.meshRef := true; Signal.elapsed := 0 |}.

Definition tick1 : Signal.Input :=
  {| Signal.videoRef := Some video1; Signal.now := 33;
     Signal.meshRef := true; Signal.elapsed := 1 / 30 |}.

(** The whole machine at rest with a given detector loaded. *)
Definition started (hl : HandLandmarker) : Signal.State :=
  {| Signal.app := {| App.openness := 0;
                      App.vision := initializeVision hl initial |};
     Signal.uniforms := SaturnParticles.uniforms |}.

(** The machine one tick after an open hand appeared on [video0]: the
    openness is 1 and the expansion has made its first step, to 0.1. *)
Definition opened : Signal.State :=
  {| Signal.app := {| App.openness := 1; App.vision := seen0 |};
     Signal.uniforms :=
       {| SaturnParticles.uTime := 0;
          SaturnParticles.uExpansion := SaturnParticles.lerp 0 1 0.1 |} |}.

(** Everything goes well when the camera is started. *)
Definition camera : App.Camera :=
  {| App.visionCreated := Some seesOpenHand; App.streamGranted := true;
     App.videoMounted := true; App.dataLoaded := true |}.

(** A ring particle and a slower copy of it further out. *)
Definition inner : SaturnParticles.Attributes :=
  {| SaturnParticles.size := 0.3; SaturnParticles.speed := 2;
     SaturnParticles.orbitRadius := 4; SaturnParticles.angleOffset := 0;
     SaturnParticles.randomness := 0; SaturnParticles.color := white |}.

Definition outer : SaturnParticles.Attributes :=
  {| SaturnParticles.size := 0.3; SaturnParticles.speed := 2;
     SaturnParticles.orbitRadius := 9; SaturnParticles.angleOffset := 0;
     SaturnParticles.randomness := 0; SaturnParticles.color := white |}.

End Sample.

(** * Properties *)

(** ** The extractor *)

Section Extractor.

Import VisionService.

Lemma normalize_range (avg : R) : 0 <= normalize avg <= 1.
Proof.
  unfold normalize. split.
  - apply Rmax_l.
  - apply Rmax_lub; [lra | apply Rmin_l].
Qed.

Lemma normalize_closed (avg : R) : avg <= 0.2 -> normalize avg = 0.
Proof.
  intros Hle. unfold normalize, minVal, maxVal.
  assert (Hq : (avg - 0.2) / (0.55 - 0.2) <= 0).
  { apply Rmult_le_reg_r with (0.55 - 0.2); [lra |].
    unfold Rdiv. rewrite Rmult_assoc, Rinv_l; lra. }
  rewrite Rmin_right by lra. apply Rmax_left; exact Hq.
Qed.

Lemma normalize_open (avg : R) : 0.55 <= avg -> normalize avg = 1.
Proof.
  intros Hle. unfold normalize, minVal, maxVal.
  assert (Hq : 1 <= (avg - 0.2) / (0.55 - 0.2)).
  { apply Rmult_le_reg_r with (0.55 - 0.2); [lra |].
    unfold Rdiv. rewrite Rmult_assoc, Rinv_l; lra. }
  rewrite Rmin_left by exact Hq. apply Rmax_right; lra.
Qed.

Lemma normalize_between (avg : R) :
  0.2 <= avg <= 0.55 -> normalize avg = (avg - 0.2) / 0.35.
Proof.
  intros [Hlo Hhi]. unfold normalize, minVal, maxVal.
  replace (0.55 - 0.2) with 0.35 by lra.
  assert (H0 : 0 <= (avg - 0.2) / 0.35).
  { apply Rmult_le_reg_r with 0.35; [lra |].
    unfold Rdiv. rewrite Rmult_assoc, Rinv_l; lra. }
  assert (H1 : (avg - 0.2) / 0.35 <= 1).
  { apply Rmult_le_reg_r with 0.35; [lra |].
    unfold Rdiv. rewrite Rmult_assoc, Rinv_l; lra. }
  rewrite Rmin_right by exact H1. apply Rmax_right; exact H0.
Qed.

Lemma normalize_midpoint : normalize 0.375 = 0.5.
Proof. rewrite normalize_between by lra. lra. Qed.

(** On a hand with all its landmarks the six lookups succeed, and the
    code's sum is the mean the specification describes. *)
Lemma opennessOf_wellFormed (landmarks : list NormalizedLandmark) :
  wellFormed landmarks ->
  opennessOf landmarks = Some (normalize (meanTipDistance landmarks)).
Proof.
  unfold wellFormed. intros Hlen.
  do 21 (destruct landmarks as [| ? landmarks]; [simpl in Hlen; lia |]).
  unfold opennessOf, meanTipDistance, avgDist, getDist, tips.
  cbn [nth_error nth map fold_right]. do 2 f_equal. f_equal.
  cbn [pow]. rewrite !Rmult_1_r, Rplus_0_r. ring.
Qed.

(** A landmark list too short to hold the pinky tip makes the code throw. *)
Lemma opennessOf_malformed (landmarks : list NormalizedLandmark) :
  (length landmarks <= 20)%nat -> opennessOf landmarks = None.
Proof.
  intros Hlen. unfold opennessOf.
  assert (H20 : nth_error landmarks 20 = None)
    by (apply nth_error_None; exact Hlen).
  rewrite H20.
  destruct (nth_error landmarks 0), (nth_error landmarks 4),
    (nth_error landmarks 8), (nth_error landmarks 12),
    (nth_error landmarks 16); reflexivity.
Qed.

Lemma detectHand_not_ready st video now :
  handLandmarker st = None ->
  detectHand st video now = (Some notDetected, st).
Proof. intros H. unfold detectHand. rewrite H. reflexivity. Qed.

Lemma detectHand_repeated st video now :
  repeated st video ->
  detectHand st video now = (Some notDetected, st).
Proof.
  unfold repeated, detectHand. intros Heq.
  destruct (handLandmarker st); [| reflexivity].
  destruct (Req_dec_T (currentTime video) (lastVideoTime st));
    [reflexivity | contradiction].
Qed.

Lemma detectHand_detects st video now landmarks :
  detects st video now landmarks ->
  wellFormed landmarks ->
  fst (detectHand st video now)
  = Some {| openness := normalize (meanTipDistance landmarks);
            isDetected := true |}.
Proof.
  intros [Hfresh (hl & rest & Hhl & Hres)] Hwf.
  unfold repeated in Hfresh. unfold detectHand. rewrite Hhl.
  destruct (Req_dec_T (currentTime video) (lastVideoTime st));
    [contradiction |].
  rewrite Hres, (opennessOf_wellFormed _ Hwf). reflexivity.
Qed.

(** Whatever the state, the video and the detector are, a returned
    openness lies in [0, 1]. *)
Lemma detectHand_range st video now rd st' :
  detectHand st video now = (Some rd, st') -> 0 <= openness rd <= 1.
Proof.
  unfold detectHand.
  destruct (handLandmarker st) as [hl |].
  2:{ intros H; inversion H; subst; simpl; lra. }
  destruct (Req_dec_T (currentTime video) (lastVideoTime st)).
  { intros H; inversion H; subst; simpl; lra. }
  destruct (hl video now) as [[| landmarks rest] |].
  1, 3: intros H; inversion H; subst; simpl; lra.
  unfold opennessOf.
  destruct (nth_error landmarks 0), (nth_error landmarks 4),
    (nth_error landmarks 8), (nth_error landmarks 12),
    (nth_error landmarks 16), (nth_error landmarks 20);
    intros H; inversion H; subst; simpl; apply normalize_range.
Qed.

End Extractor.

Section ExtractorClaims.

Import VisionService.

Lemma meanTipDistance_openHand : meanTipDistance Sample.openHand = 1.
Proof.
  unfold meanTipDistance, Sample.openHand, tips.
  cbn [repeat nth map fold_right x y].
  replace ((1 - 0) * (1 - 0) + (0 - 0) * (0 - 0)) with 1 by ring.
  rewrite sqrt_1. lra.
Qed.

Lemma wellFormed_openHand : wellFormed Sample.openHand.
Proof. unfold wellFormed, Sample.openHand. simpl. lia. Qed.

Lemma detects_openHand :
  detects Sample.loaded Sample.video0 0 Sample.openHand.
Proof.
  split.
  - unfold repeated. simpl. lra.
  - exists Sample.seesOpenHand, []. split; reflexivity.
Qed.

(** C6. On a well-formed landmark set the extractor returns
    [clamp ((avgDist - 0.2) / (0.55 - 0.2), 0, 1)], where [avgDist] is the
    mean of the five fingertip-to-wrist Euclidean distances: 0 when
    [avgDist <= 0.2], 1 when [avgDist >= 0.55], 0.5 at 0.375; and this is
    the openness [detectHand] reports, with [isDetected] true, whenever
    the detector is consulted and finds that hand. *)
Theorem extractor_openness (landmarks : list NormalizedLandmark) :
  wellFormed landmarks ->
  let avg := meanTipDistance landmarks in
  let value := Rmax 0 (Rmin 1 ((avg - 0.2) / (0.55 - 0.2))) in
  opennessOf landmarks = Some value
  /\ (avg <= 0.2 -> value = 0)
  /\ (0.55 <= avg -> value = 1)
  /\ (avg = 0.375 -> value = 0.5)
  /\ (forall st video now,
         detects st video now landmarks ->
         fst (detectHand st video now)
         = Some {| openness := value; isDetected := true |}).
Proof.
  intros Hwf avg value.
  assert (Hv : value = normalize avg) by reflexivity.
  rewrite Hv. repeat split.
  - apply opennessOf_wellFormed; exact Hwf.
  - apply normalize_closed.
  - apply normalize_open.
  - intros ->. apply normalize_midpoint.
  - intros st video now Hd. apply detectHand_detects; assumption.
Qed.

Lemma extractor_openness_witness :
  wellFormed Sample.openHand
  /\ fst (detectHand Sample.loaded Sample.video0 0)
     = Some {| openness := 1; isDetected := true |}.
Proof.
  split; [exact wellFormed_openHand |].
  destruct (extractor_openness Sample.openHand wellFormed_openHand)
    as (_ & _ & Hopen & _ & Hdet).
  rewrite (Hdet _ _ _ detects_openHand). do 2 f_equal.
  apply Hopen. rewrite meanTipDistance_openHand. lra.
Defined.

End ExtractorClaims.

(** ** Repeated frames and the hidden timestamp *)

Section RepeatedFrames.

Import VisionService.

Lemma ready_seen0 : ready Sample.seen0.
Proof. unfold ready. simpl. discriminate. Qed.

Lemma repeated_seen0 : repeated Sample.seen0 Sample.video0.
Proof. reflexivity. Qed.

Lemma detectHand_loaded_video0 :
  detectHand Sample.loaded Sample.video0 0
  = (Some {| openness := 1; isDetected := true |}, Sample.seen0).
Proof.
  unfold detectHand. cbn [Sample.loaded initializeVision handLandmarker].
  destruct (Req_dec_T _ _) as [Heq | _]; [simpl in Heq; lra |].
  cbn [Sample.seesOpenHand].
  rewrite (opennessOf_wellFormed _ wellFormed_openHand).
  rewrite meanTipDistance_openHand, normalize_open by lra.
  reflexivity.
Qed.

(** C1, as the specification has it, fails: the detector is loaded,
    [Sample.video0] has already been processed, the loop runs on it again,
    and the application's openness decays from 1 to 0.95. *)
Lemma repeated_frame_decays :
  ready (App.vision Sample.appOpen)
  /\ repeated (App.vision Sample.appOpen) Sample.video0
  /\ exists app',
      App.loop Sample.appOpen (Some Sample.video0) 0 = Some app'
      /\ App.openness app' = 0.95
      /\ App.openness app' <> App.openness Sample.appOpen.
Proof.
  split; [exact ready_seen0 |].
  split; [exact repeated_seen0 |].
  unfold App.loop. cbn [readyState Sample.video0 Nat.eqb].
  rewrite (detectHand_repeated _ _ _ repeated_seen0).
  eexists. split; [reflexivity |].
  cbn [App.openness App.updater notDetected isDetected Sample.appOpen].
  split; lra.
Qed.

(** C1, amended. When [detectHand] is called on a frame whose timestamp
    has not advanced, the detector is not consulted (whichever detector
    is loaded, the answer is the same) and the module state is left as it
    was; the call returns [{openness: 0, isDetected: false}], the object
    it returns for no detection, and the loop applies the decay
    [openness * 0.95]. *)
Theorem repeated_frame_is_no_detection
        (app : App.State) (video : HTMLVideoElement) (now : R) :
  repeated (App.vision app) video ->
  readyState video = 4%nat ->
  detectHand (App.vision app) video now
  = (Some notDetected, App.vision app)
  /\ (forall hl now',
         fst (detectHand {| handLandmarker := Some hl;
                            lastVideoTime :=
                              lastVideoTime (App.vision app) |}
                         video now')
         = Some notDetected)
  /\ App.loop app (Some video) now
     = Some {| App.openness := App.openness app * 0.95;
               App.vision := App.vision app |}.
Proof.
  intros Hrep Hready. split; [| split].
  - apply detectHand_repeated; exact Hrep.
  - intros hl now'. rewrite detectHand_repeated; [reflexivity | exact Hrep].
  - unfold App.loop. rewrite Hready. cbn [Nat.eqb].
    rewrite detectHand_repeated by exact Hrep. reflexivity.
Qed.

Lemma repeated_frame_is_no_detection_witness :
  repeated (App.vision Sample.appOpen) Sample.video0
  /\ readyState Sample.video0 = 4%nat
  /\ App.loop Sample.appOpen (Some Sample.video0) 0
     = Some {| App.openness := App.openness Sample.appOpen * 0.95;
               App.vision := App.vision Sample.appOpen |}.
Proof.
  split; [reflexivity | split; [reflexivity |]].
  apply (repeated_frame_is_no_detection
           Sample.appOpen Sample.video0 0); reflexivity.
Defined.

(** C9, as the specification has it, fails for [detectHand]: called twice
    in a row on the same frame with the same detector answer, it reports
    openness 1 the first time and openness 0, not detected, the second
    time, because the first call has stored the frame's timestamp. *)
Lemma detectHand_twice_differs :
  exists r1 s1 r2 s2,
    detectHand Sample.loaded Sample.video0 0 = (Some r1, s1)
    /\ detectHand s1 Sample.video0 0 = (Some r2, s2)
    /\ openness r1 = 1 /\ openness r2 = 0
    /\ openness r1 <> openness r2.
Proof.
  exists {| openness := 1; isDetected := true |}, Sample.seen0,
    notDetected, Sample.seen0.
  split; [exact detectHand_loaded_video0 |].
  split; [apply detectHand_repeated; exact repeated_seen0 |].
  cbn [openness notDetected]. repeat split; lra.
Qed.

(** C9, amended. The openness is a function of the landmark set alone
    whenever the detector is consulted: two calls of [detectHand], from
    any two module states and on any two fresh frames in which the
    detector finds the same well-formed hand, return the same object.
    (On a frame whose timestamp has not advanced the stored timestamp
    decides instead, see C1.) *)
Theorem detectHand_depends_on_landmarks_when_fresh
        (landmarks : list NormalizedLandmark)
        (st1 st2 : State) (video1 video2 : HTMLVideoElement)
        (now1 now2 : R) :
  wellFormed landmarks ->
  detects st1 video1 now1 landmarks ->
  detects st2 video2 now2 landmarks ->
  fst (detectHand st1 video1 now1) = fst (detectHand st2 video2 now2)
  /\ exists o, opennessOf landmarks = Some o
               /\ fst (detectHand st1 video1 now1)
                  = Some {| openness := o; isDetected := true |}.
Proof.
  intros Hwf H1 H2.
  rewrite (detectHand_detects _ _ _ _ H1 Hwf).
  rewrite (detectHand_detects _ _ _ _ H2 Hwf).
  split; [reflexivity |].
  eexists. split; [apply opennessOf_wellFormed; exact Hwf | reflexivity].
Qed.

Lemma detects_openHand_again :
  detects Sample.seen0 Sample.video1 40 Sample.openHand.
Proof.
  split.
  - unfold repeated. simpl. lra.
  - exists Sample.seesOpenHand, []. split; reflexivity.
Qed.

Lemma detectHand_depends_on_landmarks_when_fresh_witness :
  wellFormed Sample.openHand
  /\ detects Sample.loaded Sample.video0 0 Sample.openHand
  /\ detects Sample.seen0 Sample.video1 40 Sample.openHand
  /\ fst (detectHand Sample.loaded Sample.video0 0)
     = fst (detectHand Sample.seen0 Sample.video1 40).
Proof.
  split; [exact wellFormed_openHand |].
  split; [exact detects_openHand |].
  split; [exact detects_openHand_again |].
  apply (detectHand_depends_on_landmarks_when_fresh
           Sample.openHand Sample.loaded Sample.seen0
           Sample.video0 Sample.video1 0 40
           wellFormed_openHand detects_openHand detects_openHand_again).
Defined.

End RepeatedFrames.

(** ** Smoothing and decay of the driving scalar *)

Section SmootherFacts.

Import SaturnParticles.

Lemma lerp_tenth (e r : R) : lerp e r 0.1 = e + 0.1 * (r - e).
Proof. unfold lerp. ring. Qed.

Lemma lerp_range (e r : R) :
  0 <= e <= 1 -> 0 <= r <= 1 -> 0 <= lerp e r 0.1 <= 1.
Proof. intros He Hr. unfold lerp. lra. Qed.

Lemma clamp_inside (v lo hi : R) : lo <= v <= hi -> clamp v lo hi = v.
Proof.
  intros [Hlo Hhi]. unfold clamp.
  rewrite Rmax_left by exact Hlo. apply Rmin_left; exact Hhi.
Qed.

Lemma clamp_range (v lo hi : R) : lo <= hi -> lo <= clamp v lo hi <= hi.
Proof.
  intros Hle. unfold clamp. split.
  - apply Rmin_glb; [apply Rmax_r | exact Hle].
  - apply Rmin_r.
Qed.

Lemma clamp_mono (u v lo hi : R) :
  u <= v -> clamp u lo hi <= clamp v lo hi.
Proof.
  intros Huv. unfold clamp.
  apply Rle_min_compat_r. apply Rle_max_compat_r. exact Huv.
Qed.

Lemma updater_range (detected prev : R) (isDetected : bool) :
  (isDetected = true -> 0 <= detected <= 1) ->
  0 <= prev <= 1 ->
  0 <= App.updater detected isDetected prev <= 1.
Proof.
  intros Hd Hp. unfold App.updater. destruct isDetected.
  - apply Hd; reflexivity.
  - lra.
Qed.

End SmootherFacts.

Section SmootherProps.

Import Smoother.

Lemma inRange_initial : inRange initial.
Proof. unfold inRange, initial. simpl. lra. Qed.

Lemma tick_inRange (s : State) (rd : VisionService.HandReading) :
  inRange s -> valid rd -> inRange (tick s rd).
Proof.
  intros [Ho Hu] Hv. unfold tick, inRange. cbn [openness uExpansion].
  assert (Hn := updater_range _ _ _ Hv Ho).
  split; [exact Hn | apply lerp_range; assumption].
Qed.

Lemma run_inRange (rds : list VisionService.HandReading) :
  forall s, inRange s -> Forall valid rds -> inRange (run s rds).
Proof.
  unfold run. induction rds as [| rd rds IH]; intros s Hs Hall.
  - exact Hs.
  - inversion Hall as [| ? ? Hrd Hrest]; subst. cbn [fold_left].
    apply IH; [apply tick_inRange; assumption | exact Hrest].
Qed.

Lemma decays_S (k : nat) (s : State) :
  decays (S k) s = tick (decays k s) noReading.
Proof.
  unfold decays, run.
  change (repeat noReading (S k)) with (noReading :: repeat noReading k).
  rewrite repeat_cons, fold_left_app. reflexivity.
Qed.

Lemma openness_decays (k : nat) (s : State) :
  openness (decays k s) = openness s * 0.95 ^ k.
Proof.
  induction k as [| k IH].
  - unfold decays, run. cbn [repeat fold_left pow]. ring.
  - rewrite decays_S. unfold tick at 1. cbn [openness].
    unfold noReading, VisionService.notDetected, App.updater.
    cbn [VisionService.isDetected]. rewrite IH. cbn [pow]. ring.
Qed.

Lemma uExpansion_decays_S (k : nat) (s : State) :
  uExpansion (decays (S k) s)
  = SaturnParticles.lerp (uExpansion (decays k s))
                         (openness s * 0.95 ^ S k) 0.1.
Proof.
  rewrite <- openness_decays, decays_S. reflexivity.
Qed.

Lemma uExpansion_decays_nonneg (k : nat) (s : State) :
  0 <= openness s -> 0 <= uExpansion s -> 0 <= uExpansion (decays k s).
Proof.
  intros Ho Hu. induction k as [| k IH].
  - exact Hu.
  - rewrite uExpansion_decays_S. unfold SaturnParticles.lerp.
    assert (Hp : 0 <= 0.95 ^ S k) by (apply pow_le; lra).
    assert (Hq : 0 <= openness s * 0.95 ^ S k)
      by (apply Rmult_le_pos; assumption).
    lra.
Qed.

End SmootherProps.

Section SmootherClaims.

Import Smoother.

(** C3. With a raw reading [r] in [0, 1] and a previous expansion [e0] in
    [0, 1], one tick with a reading leaves the expansion at
    [e0 + 0.1 * (r - e0)], which is its own clamp to [0, 1]; this is what
    [useFrame] writes to [uExpansion] once [loop] has stored [r]. *)
Theorem reading_transition (r e0 o0 : R) :
  0 <= r <= 1 ->
  0 <= e0 <= 1 ->
  let s' := tick {| openness := o0; uExpansion := e0 |} (reading r) in
  uExpansion s' = e0 + 0.1 * (r - e0)
  /\ uExpansion s' = SaturnParticles.clamp (e0 + 0.1 * (r - e0)) 0 1
  /\ openness s' = r
  /\ forall t0 t : R,
      SaturnParticles.uExpansion
        (SaturnParticles.useFrame
           true (openness s') t
           {| SaturnParticles.uTime := t0;
              SaturnParticles.uExpansion := e0 |})
      = e0 + 0.1 * (r - e0).
Proof.
  intros Hr He s'. unfold s', tick, reading, App.updater.
  cbn [openness uExpansion VisionService.isDetected
       VisionService.openness].
  repeat split.
  - apply lerp_tenth.
  - rewrite clamp_inside by lra. apply lerp_tenth.
  - intros t0 t. cbn [SaturnParticles.useFrame SaturnParticles.uExpansion].
    apply lerp_tenth.
Qed.

Lemma reading_transition_witness :
  0 <= 1 <= 1 /\ 0 <= 0.5 <= 1
  /\ uExpansion (tick Sample.half (reading 1)) = 0.5 + 0.1 * (1 - 0.5).
Proof.
  split; [lra | split; [lra |]].
  apply (reading_transition 1 0.5 0.5); lra.
Defined.


(** C8. The expansion starts at 0, and along every sequence of ticks, each
    carrying either a reading in [0, 1] or no reading, the expansion (and
    the openness it follows) is in [0, 1] after every tick. *)
Theorem expansion_stays_in_unit_interval
        (rds : list VisionService.HandReading) :
  Forall valid rds ->
  uExpansion initial = 0
  /\ forall done todo : list VisionService.HandReading,
      rds = done ++ todo ->
      0 <= uExpansion (run initial done) <= 1
      /\ 0 <= openness (run initial done) <= 1.
Proof.
  intros Hall. split; [reflexivity |].
  intros done todo ->. apply Forall_app in Hall as [Hdone _].
  destruct (run_inRange done initial inRange_initial Hdone) as [Ho Hu].
  split; assumption.
Qed.

Lemma expansion_stays_in_unit_interval_witness :
  Forall valid [reading 1; noReading; reading 0.25]
  /\ 0 <= uExpansion (run initial [reading 1; noReading]) <= 1.
Proof.
  assert (Hall : Forall valid [reading 1; noReading; reading 0.25]).
  { repeat constructor; unfold valid; simpl; intros; lra. }
  split; [exact Hall |].
  apply (proj2 (expansion_stays_in_unit_interval _ Hall)
               [reading 1; noReading] [reading 0.25] eq_refl).
Defined.

End SmootherClaims.

(** ** The vertex shader *)

Section Shader.

Import SaturnParticles.

(** The cubic of [smoothstep] is non-decreasing on [0, 1]. *)
Lemma hermite_mono (s t : R) :
  0 <= s -> s <= t -> t <= 1 ->
  s * s * (3 - 2 * s) <= t * t * (3 - 2 * t).
Proof.
  intros H0 Hst H1.
  assert (Hd : t * t * (3 - 2 * t) - s * s * (3 - 2 * s)
               = (t - s) * (s * (3 - 2 * s - t) + t * (3 - 2 * t - s)))
    by ring.
  assert (Hs : 0 <= s * (3 - 2 * s - t)) by (apply Rmult_le_pos; lra).
  assert (Ht : 0 <= t * (3 - 2 * t - s)) by (apply Rmult_le_pos; lra).
  assert (Hp : 0 <= (t - s) * (s * (3 - 2 * s - t) + t * (3 - 2 * t - s)))
    by (apply Rmult_le_pos; lra).
  lra.
Qed.

Lemma ramp_mono (u v : R) :
  u <= v -> (u - 0.7) / (1 - 0.7) <= (v - 0.7) / (1 - 0.7).
Proof.
  intros Huv. unfold Rdiv. apply Rmult_le_compat_r.
  - left. apply Rinv_0_lt_compat. lra.
  - lra.
Qed.

Lemma smoothstep_mono (u v : R) :
  u <= v -> smoothstep 0.7 1 u <= smoothstep 0.7 1 v.
Proof.
  intros Huv. unfold smoothstep.
  pose proof (clamp_range ((u - 0.7) / (1 - 0.7)) 0 1 ltac:(lra)) as Hu.
  pose proof (clamp_range ((v - 0.7) / (1 - 0.7)) 0 1 ltac:(lra)) as Hv.
  pose proof (clamp_mono _ _ 0 1 (ramp_mono u v Huv)) as Hm.
  cbv zeta. apply hermite_mono; lra.
Qed.

Lemma smoothstep_below (u : R) : u <= 0.7 -> smoothstep 0.7 1 u = 0.
Proof.
  intros Hu. unfold smoothstep, clamp. cbv zeta.
  assert (Hq : (u - 0.7) / (1 - 0.7) <= 0).
  { apply Rmult_le_reg_r with (1 - 0.7); [lra |].
    unfold Rdiv. rewrite Rmult_assoc, Rinv_l; lra. }
  rewrite Rmax_right by exact Hq. rewrite Rmin_left by lra. ring.
Qed.

Lemma smoothstep_top : smoothstep 0.7 1 1 = 1.
Proof.
  unfold smoothstep. cbv zeta.
  replace ((1 - 0.7) / (1 - 0.7)) with 1 by (field; lra).
  rewrite clamp_inside by lra. ring.
Qed.

Lemma smoothstep_inside (u : R) :
  0.7 <= u <= 1 ->
  smoothstep 0.7 1 u
  = ((u - 0.7) / 0.3) * ((u - 0.7) / 0.3) * (3 - 2 * ((u - 0.7) / 0.3)).
Proof.
  intros [Hlo Hhi]. unfold smoothstep. cbv zeta.
  replace (1 - 0.7) with 0.3 by lra.
  assert (H0 : 0 <= (u - 0.7) / 0.3).
  { apply Rmult_le_reg_r with 0.3; [lra |].
    unfold Rdiv. rewrite Rmult_assoc, Rinv_l; lra. }
  assert (H1 : (u - 0.7) / 0.3 <= 1).
  { apply Rmult_le_reg_r with 0.3; [lra |].
    unfold Rdiv. rewrite Rmult_assoc, Rinv_l; lra. }
  rewrite clamp_inside by lra. reflexivity.
Qed.

(** C4. On [0, 1] the chaos mix factor is non-decreasing in the expansion,
    is 0 for every expansion up to 0.7 and is 1 at expansion 1; between
    0.7 and 1 it is the cubic [t * t * (3 - 2 * t)] of
    [t = (expansion - 0.7) / 0.3], the smoothstep from 0.7 to 1. *)
Theorem chaos_factor_is_smoothstep (e1 e2 : R) :
  0 <= e1 -> e1 <= e2 -> e2 <= 1 ->
  chaosFactor e1 <= chaosFactor e2
  /\ (e1 <= 0.7 -> chaosFactor e1 = 0)
  /\ chaosFactor 1 = 1
  /\ 0 <= chaosFactor e1 <= 1
  /\ (0.7 <= e1 ->
      let t := (e1 - 0.7) / 0.3 in
      chaosFactor e1 = t * t * (3 - 2 * t)).
Proof.
  intros H0 H12 H1. unfold chaosFactor, chaosThreshold.
  split; [apply smoothstep_mono; exact H12 |].
  split; [apply smoothstep_below |].
  split; [exact smoothstep_top |].
  split.
  - split.
    + rewrite <- (smoothstep_below 0) by lra. apply smoothstep_mono; lra.
    + rewrite <- smoothstep_top at 2. apply smoothstep_mono; lra.
  - intros Hlo. cbv zeta. apply smoothstep_inside; lra.
Qed.

Lemma chaos_factor_is_smoothstep_witness :
  0 <= 0.85 /\ 0.85 <= 1 /\ 1 <= 1
  /\ chaosFactor 0.85 <= chaosFactor 1
  /\ chaosFactor 0.85 = 0.5.
Proof.
  destruct (chaos_factor_is_smoothstep 0.85 1) as (Hm & _ & _ & _ & Hc);
    [lra | lra | lra |].
  split; [lra | split; [lra | split; [lra | split; [exact Hm |]]]].
  specialize (Hc ltac:(lra)). cbv zeta in Hc. rewrite Hc. lra.
Defined.

(** C5. The position of a particle at time [t] under expansion [e]: with
    [w = speed / sqrt (orbitRadius + 0.1)] and
    [angle = angleOffset + w * t * 0.5], the orbital point is
    [(cos angle * R, sin (2 * angle + angleOffset) * 0.1 * R,
      sin angle * R)]; the result is the blend, weighted by the chaos mix
    factor [c], of that point and that point moved by the jitter
    [3 * e * noiseVec], all scaled by [1 + e * 5]. *)
Theorem position_formula (p : Attributes) (t e : R) :
  let w := speed p / sqrt (orbitRadius p + 0.1) in
  let angle := angleOffset p + w * t * 0.5 in
  let ox := cos angle * orbitRadius p in
  let oy := sin (2 * angle + angleOffset p) * 0.1 * orbitRadius p in
  let oz := sin angle * orbitRadius p in
  let jx := sin (t * 10 + randomness p) * (e * 3) in
  let jy := cos (t * 12 + randomness p * 2) * (e * 3) in
  let jz := sin (t * 8 + randomness p * 3) * (e * 3) in
  let c := chaosFactor e in
  orbitSpeed p = w
  /\ currentAngle p t = angle
  /\ orbitalPos p t = {| vx := ox; vy := oy; vz := oz |}
  /\ chaosPos p t e = {| vx := ox + jx; vy := oy + jy; vz := oz + jz |}
  /\ position p t e
     = {| vx := ((1 - c) * ox + c * (ox + jx)) * (1 + e * 5);
          vy := ((1 - c) * oy + c * (oy + jy)) * (1 + e * 5);
          vz := ((1 - c) * oz + c * (oz + jz)) * (1 + e * 5) |}
  /\ position p t e
     = vscale {| vx := ox + c * jx; vy := oy + c * jy; vz := oz + c * jz |}
              (1 + e * 5).
Proof.
  intros w angle ox oy oz jx jy jz c.
  assert (Horb : orbitalPos p t = {| vx := ox; vy := oy; vz := oz |}).
  { unfold orbitalPos, ox, oy, oz, angle, w, currentAngle, orbitSpeed.
    cbv zeta. f_equal.
    replace (2 * (angleOffset p
                  + speed p / sqrt (orbitRadius p + 0.1) * t * 0.5))
      with ((angleOffset p
             + speed p / sqrt (orbitRadius p + 0.1) * t * 0.5) * 2)
      by ring.
    ring. }
  assert (Hchaos : chaosPos p t e
                   = {| vx := ox + jx; vy := oy + jy; vz := oz + jz |}).
  { unfold chaosPos. rewrite Horb. reflexivity. }
  split; [reflexivity |]. split; [reflexivity |].
  split; [exact Horb |]. split; [exact Hchaos |].
  unfold position, finalPos, systemScale. rewrite Horb, Hchaos.
  fold c. unfold mix, vadd, vscale. cbn [vx vy vz].
  split; f_equal; ring.
Qed.

End Shader.

(** ** The population generator *)

Section PopulationFacts.

Import SaturnParticles.

Variables colorCore colorRingInner colorRingOuter : Color.

Local Notation "'particle'" :=
  (SaturnParticles.particle colorCore colorRingInner colorRingOuter).
Local Notation "'particles'" :=
  (SaturnParticles.particles colorCore colorRingInner colorRingOuter).

Lemma core_threshold : INR COUNT * 0.2 = INR 3000.
Proof.
  rewrite !INR_IZR_INZ.
  replace (Z.of_nat COUNT) with 15000%Z by (vm_compute; reflexivity).
  replace (Z.of_nat 3000) with 3000%Z by (vm_compute; reflexivity).
  lra.
Qed.

Lemma isCore_true (i : nat) : isCore i = true <-> (i < 3000)%nat.
Proof.
  unfold isCore. rewrite core_threshold.
  destruct (Rlt_dec (INR i) (INR 3000)) as [Hlt | Hnlt].
  - split; [intros _; apply INR_lt; exact Hlt | reflexivity].
  - split; [discriminate |].
    intros Hi. exfalso. apply Hnlt, lt_INR, Hi.
Qed.

Lemma isCore_false (i : nat) : isCore i = false <-> (3000 <= i)%nat.
Proof.
  pose proof (isCore_true i) as H. destruct (isCore i).
  - split; [discriminate |]. intros Hi.
    assert (i < 3000)%nat by (apply H; reflexivity). lia.
  - split; [| reflexivity]. intros _.
    destruct (Nat.lt_ge_cases i 3000) as [Hlt | Hge]; [| exact Hge].
    apply H in Hlt. discriminate.
Qed.

Lemma core_count (n : nat) :
  length (filter isCore (seq 0 n)) = Nat.min n 3000.
Proof.
  induction n as [| n IH]; [reflexivity |].
  rewrite seq_S, filter_app, length_app, IH. cbn [Nat.add filter].
  destruct (isCore n) eqn:Hn.
  - apply isCore_true in Hn. cbn [length]. lia.
  - apply isCore_false in Hn. cbn [length]. lia.
Qed.

(** The cells written by a core iteration that starts after [n] calls of
    [Math.random]. *)
Lemma particle_core (i : nat) (src : Random.Source) (n : nat) :
  isCore i = true ->
  particle i src n
  = ({| size := src (4 + n)%nat * 0.5 + 0.5;
        speed := 0.5 + src (3 + n)%nat * 0.5;
        orbitRadius := src (2 + n)%nat * 2.5;
        angleOffset := src (5 + n)%nat * PI * 2;
        randomness := src (6 + n)%nat;
        color := colorCore |}, (7 + n)%nat).
Proof.
  intros Hcore. unfold SaturnParticles.particle. rewrite Hcore.
  reflexivity.
Qed.

(** The cells written by a ring iteration that starts after [n] calls of
    [Math.random]: the band selector is call [n], the radius uses call
    [n + 1]. *)
Lemma particle_ring (i : nat) (src : Random.Source) (n : nat) :
  isCore i = false ->
  let band := src n in
  let radius :=
    if Rlt_dec band 0.3 then 4 + src (1 + n)%nat * 2
    else if Rlt_dec band 0.4 then 6.5 + src (1 + n)%nat * 0.5
         else 7 + src (1 + n)%nat * 3 in
  particle i src n
  = ({| size := src (2 + n)%nat * 0.3 + 0.2;
        speed := 2;
        orbitRadius := radius;
        angleOffset := src (3 + n)%nat * PI * 2;
        randomness := src (4 + n)%nat;
        color := lerpColors colorRingInner colorRingOuter
                            ((radius - 4) / 6) |}, (5 + n)%nat).
Proof.
  intros Hring band radius. unfold SaturnParticles.particle.
  rewrite Hring. unfold radius, band, ringRad, Random.bind, Random.random.
  destruct (Rlt_dec (src n) 0.3); [reflexivity |].
  destruct (Rlt_dec (src n) 0.4); reflexivity.
Qed.

Lemma particle_draws (i : nat) (src : Random.Source) :
  snd (particle i src (drawsBefore i)) = drawsBefore (S i).
Proof.
  cbn [drawsBefore]. destruct (isCore i) eqn:Hi.
  - rewrite particle_core by exact Hi. cbn [snd]. lia.
  - rewrite (particle_ring i src _ Hi). cbn [snd]. lia.
Qed.

Lemma particles_length (n : nat) :
  forall from src c, length (fst (particles n from src c)) = n.
Proof.
  induction n as [| n IH]; intros from src c; [reflexivity |].
  cbn [SaturnParticles.particles]. unfold Random.bind.
  destruct (particle from src c) as [a c1].
  specialize (IH (S from) src c1).
  destruct (particles n (S from) src c1) as [rest c2].
  cbn [fst length Random.ret] in *. now rewrite IH.
Qed.

(** Iteration [from + j] of the loop starts after [drawsBefore (from + j)]
    calls and writes the [j]-th cell of what the loop produces. *)
Lemma particles_nth (n : nat) :
  forall from src j,
    (j < n)%nat ->
    nth_error (fst (particles n from src (drawsBefore from))) j
    = Some (fst (particle (from + j) src (drawsBefore (from + j)))).
Proof.
  induction n as [| n IH]; intros from src j Hj; [lia |].
  cbn [SaturnParticles.particles]. unfold Random.bind.
  pose proof (particle_draws from src) as Hd.
  destruct (particle from src (drawsBefore from)) as [a c1] eqn:Ha.
  cbn [snd] in Hd. subst c1.
  destruct j as [| j].
  - destruct (particles n (S from) src (drawsBefore (S from))).
    cbn [fst Random.ret nth_error]. rewrite Nat.add_0_r, Ha. reflexivity.
  - specialize (IH (S from) src j ltac:(lia)).
    destruct (particles n (S from) src (drawsBefore (S from))) as [rest c2].
    cbn [fst Random.ret nth_error] in *. rewrite IH.
    replace (S from + j)%nat with (from + S j)%nat by lia. reflexivity.
Qed.

Lemma drawsBefore_core (i : nat) :
  (i <= 3000)%nat -> drawsBefore i = (7 * i)%nat.
Proof.
  induction i as [| i IH]; intros Hi; [reflexivity |].
  cbn [drawsBefore]. rewrite IH by lia.
  assert (Hc : isCore i = true) by (apply isCore_true; lia).
  rewrite Hc. lia.
Qed.

Lemma drawsBefore_ring (i : nat) :
  (3000 <= i)%nat -> drawsBefore i = (7 * 3000 + 5 * (i - 3000))%nat.
Proof.
  induction i as [| i IH]; intros Hi; [lia |].
  destruct (Nat.eq_dec (S i) 3000) as [Heq | Hne].
  - rewrite Heq, drawsBefore_core by lia. lia.
  - cbn [drawsBefore]. rewrite IH by lia.
    assert (Hc : isCore i = false) by (apply isCore_false; lia).
    rewrite Hc. lia.
Qed.

End PopulationFacts.

Section PopulationClaims.

Import SaturnParticles.

Lemma in_unit_halves : Random.in_unit Sample.halves.
Proof. intros n. unfold Sample.halves. lra. Qed.

Lemma ring_index_in_range : (3000 < COUNT)%nat.
Proof. apply Nat.ltb_lt. vm_compute. reflexivity. Qed.

(** C7. For the population of 15000 and any numbers in [0, 1) drawn from
    the random source, the generator writes 15000 particles, and the
    particle at index [i] is a core particle exactly when [i < 3000], so
    there are 3000 of them. A core particle has [orbitRadius] in
    [0, 2.5], [speed] in [0.5, 1], [size] in [0.5, 1] and the core
    colour. A ring particle has a band selector [u], the first number its
    iteration draws: [u < 0.3] puts [orbitRadius] in [4, 6],
    [0.3 <= u < 0.4] in [6.5, 7], anything else in [7, 10]; its [speed]
    is 2, its [size] is in [0.2, 0.5) and its colour is the linear
    interpolation of the inner and outer ring colours at
    [w = (orbitRadius - 4) / 6]: each of its red, green and blue channels
    is [inner + (outer - inner) * w]. *)
Theorem population_bands
        (colorCore colorRingInner colorRingOuter : Color)
        (src : Random.Source) (i : nat) :
  Random.in_unit src ->
  (i < COUNT)%nat ->
  let population :=
    fst (generate colorCore colorRingInner colorRingOuter src 0%nat) in
  length population = COUNT
  /\ Z.of_nat COUNT = 15000%Z
  /\ length (filter isCore (seq 0 COUNT)) = 3000%nat
  /\ (isCore i = true <-> (i < 3000)%nat)
  /\ exists p : Attributes,
      nth_error population i = Some p
      /\ (isCore i = true ->
          0 <= orbitRadius p <= 2.5
          /\ 0.5 <= speed p <= 1
          /\ 0.5 <= size p <= 1
          /\ color p = colorCore)
      /\ (isCore i = false ->
          let u := src (drawsBefore i) in
          0 <= u <= 1
          /\ (u < 0.3 -> 4 <= orbitRadius p <= 6)
          /\ (0.3 <= u < 0.4 -> 6.5 <= orbitRadius p <= 7)
          /\ (0.4 <= u -> 7 <= orbitRadius p <= 10)
          /\ speed p = 2
          /\ 0.2 <= size p < 0.5
          /\ color p = lerpColors colorRingInner colorRingOuter
                                  ((orbitRadius p - 4) / 6)
          /\ r (color p)
             = r colorRingInner
               + (r colorRingOuter - r colorRingInner)
                 * ((orbitRadius p - 4) / 6)
          /\ g (color p)
             = g colorRingInner
               + (g colorRingOuter - g colorRingInner)
                 * ((orbitRadius p - 4) / 6)
          /\ b (color p)
             = b colorRingInner
               + (b colorRingOuter - b colorRingInner)
                 * ((orbitRadius p - 4) / 6)).
Proof.
  intros Hsrc Hi population. unfold population, generate.
  split; [exact (particles_length _ _ _ COUNT 0%nat src 0%nat) |].
  split; [vm_compute; reflexivity |].
  split; [rewrite core_count; vm_compute; reflexivity |].
  split; [apply isCore_true |].
  pose proof (particles_nth colorCore colorRingInner colorRingOuter
                            COUNT 0%nat src i Hi) as Hnth.
  cbn [Nat.add] in Hnth.
  exists (fst (particle colorCore colorRingInner colorRingOuter
                        i src (drawsBefore i))).
  split; [exact Hnth |].
  split.
  - intros Hcore. rewrite particle_core by exact Hcore.
    cbn [fst orbitRadius speed size color].
    pose proof (Hsrc (2 + drawsBefore i)%nat).
    pose proof (Hsrc (3 + drawsBefore i)%nat).
    pose proof (Hsrc (4 + drawsBefore i)%nat).
    repeat split; lra.
  - intros Hring. cbv zeta.
    rewrite (particle_ring _ _ _ i src (drawsBefore i) Hring).
    cbn [fst orbitRadius speed size color].
    set (u := src (drawsBefore i)).
    pose proof (Hsrc (drawsBefore i)) as Hu. fold u in Hu.
    pose proof (Hsrc (1 + drawsBefore i)%nat) as Hv.
    pose proof (Hsrc (2 + drawsBefore i)%nat) as Hw.
    split; [lra |].
    split; [| split; [| split; [| split; [| split]]]].
    + intros Hb. destruct (Rlt_dec u 0.3); lra.
    + intros Hb. destruct (Rlt_dec u 0.3); [lra |].
      destruct (Rlt_dec u 0.4); lra.
    + intros Hb. destruct (Rlt_dec u 0.3); [lra |].
      destruct (Rlt_dec u 0.4); lra.
    + reflexivity.
    + lra.
    + unfold lerpColors. cbn [r g b]. repeat split.
Qed.

Lemma population_bands_witness :
  Random.in_unit Sample.halves
  /\ (3000 < COUNT)%nat
  /\ exists p : Attributes,
      nth_error
        (fst (generate Sample.white Sample.white Sample.black
                       Sample.halves 0%nat)) 3000
      = Some p
      /\ 7 <= orbitRadius p <= 10 /\ speed p = 2.
Proof.
  split; [exact in_unit_halves | split; [exact ring_index_in_range |]].
  destruct (population_bands Sample.white Sample.white Sample.black
              Sample.halves 3000 in_unit_halves ring_index_in_range)
    as (_ & _ & _ & Hcore & p & Hp & _ & Hring).
  assert (Hnot : isCore 3000 = false).
  { destruct (isCore 3000); [| reflexivity].
    assert (3000 < 3000)%nat by (apply Hcore; reflexivity). lia. }
  destruct (Hring Hnot) as (_ & _ & _ & Houter & Hspeed & _).
  exists p. split; [exact Hp |]. split; [| exact Hspeed].
  apply Houter. unfold Sample.halves. lra.
Defined.

End PopulationClaims.

(** ** The whole signal path

    The ticks of [Smoother] are what [loop] and [useFrame] do together,
    and the readings that reach them are always in range. *)

Section SignalPath.

Import VisionService.

(** When the video is ready and the mesh is mounted, a tick of the whole
    machine is the smoother's tick on the reading [detectHand] returned. *)
Lemma tick_is_smoother_tick
      (s : Signal.State) (i : Signal.Input)
      (video : HTMLVideoElement) (rd : HandReading) (vs : State) :
  Signal.videoRef i = Some video ->
  readyState video = 4%nat ->
  Signal.meshRef i = true ->
  detectHand (App.vision (Signal.app s)) video (Signal.now i)
  = (Some rd, vs) ->
  exists s',
    Signal.tick s i = Some s'
    /\ Smoother.of_signal s' = Smoother.tick (Smoother.of_signal s) rd
    /\ Smoother.valid rd.
Proof.
  intros Hv Hr Hm Hd. unfold Signal.tick, App.loop.
  rewrite Hv, Hr, Hd, Hm. cbn [Nat.eqb]. eexists.
  split; [reflexivity |].
  split; [reflexivity |].
  intros _. exact (detectHand_range _ _ _ _ _ Hd).
Qed.

Lemma loop_inRange (a a' : App.State) videoRef now :
  0 <= App.openness a <= 1 ->
  App.loop a videoRef now = Some a' ->
  0 <= App.openness a' <= 1.
Proof.
  intros Ha. unfold App.loop.
  destruct videoRef as [video |]; [| intros H; inversion H; subst; exact Ha].
  destruct (Nat.eqb (readyState video) 4);
    [| intros H; inversion H; subst; exact Ha].
  destruct (detectHand (App.vision a) video now) as [[rd |] vs] eqn:Hd;
    [| discriminate].
  intros H. inversion H; subst. cbn [App.openness].
  apply updater_range; [| exact Ha].
  intros _. exact (detectHand_range _ _ _ _ _ Hd).
Qed.

Lemma tick_inRange_signal (s s' : Signal.State) (i : Signal.Input) :
  Smoother.inRange (Smoother.of_signal s) ->
  Signal.tick s i = Some s' ->
  Smoother.inRange (Smoother.of_signal s').
Proof.
  intros [Ho Hu]. unfold Signal.tick.
  destruct (App.loop (Signal.app s) (Signal.videoRef i) (Signal.now i))
    as [a |] eqn:Hl; [| discriminate].
  intros H. inversion H; subst. clear H.
  pose proof (loop_inRange _ _ _ _ Ho Hl) as Ha.
  unfold Smoother.inRange, Smoother.of_signal, Signal.openness,
    Signal.expansion, SaturnParticles.useFrame.
  cbn [Smoother.openness Smoother.uExpansion Signal.app Signal.uniforms].
  split; [exact Ha |].
  destruct (Signal.meshRef i);
    [cbn [SaturnParticles.uExpansion]; apply lerp_range; assumption
    | exact Hu].
Qed.

(** From the initial state, whatever the videos, detectors and clocks
    are, the expansion handed to the shader is in [0, 1]. *)
Lemma run_inRange_signal (inputs : list Signal.Input) :
  forall s s',
    Smoother.inRange (Smoother.of_signal s) ->
    Signal.run s inputs = Some s' ->
    0 <= Signal.expansion s' <= 1.
Proof.
  induction inputs as [| i rest IH]; intros s s' Hs.
  - intros H. inversion H; subst. apply Hs.
  - cbn [Signal.run].
    destruct (Signal.tick s i) as [s1 |] eqn:Ht; [| discriminate].
    apply IH. exact (tick_inRange_signal _ _ _ Hs Ht).
Qed.

(** A session in which no detector is ever loaded keeps both scalars at
    0: the loop only decays 0, and the expansion is smoothed toward 0. *)
Lemma no_detector_no_chaos (inputs : list Signal.Input) :
  forall s,
    handLandmarker (App.vision (Signal.app s)) = None ->
    Signal.openness s = 0 ->
    Signal.expansion s = 0 ->
    exists s',
      Signal.run s inputs = Some s'
      /\ Signal.openness s' = 0 /\ Signal.expansion s' = 0.
Proof.
  induction inputs as [| i rest IH]; intros s Hn Ho He.
  - exists s. repeat split; assumption.
  - cbn [Signal.run]. unfold Signal.tick, App.loop.
    unfold Signal.openness in Ho. unfold Signal.expansion in He.
    destruct (Signal.videoRef i) as [video |].
    + destruct (Nat.eqb (readyState video) 4).
      * rewrite (detectHand_not_ready _ _ _ Hn).
        apply IH; [exact Hn | |].
        -- unfold Signal.openness, App.updater.
           cbn [Signal.app App.openness notDetected isDetected].
           rewrite Ho. ring.
        -- unfold Signal.expansion, SaturnParticles.useFrame, App.updater.
           cbn [Signal.uniforms Signal.app App.openness notDetected
                isDetected].
           destruct (Signal.meshRef i); [| exact He].
           cbn [SaturnParticles.uExpansion]. unfold SaturnParticles.lerp.
           rewrite He, Ho. ring.
      * apply IH; [exact Hn | exact Ho |].
        unfold Signal.expansion, SaturnParticles.useFrame.
        cbn [Signal.uniforms Signal.app].
        destruct (Signal.meshRef i); [| exact He].
        cbn [SaturnParticles.uExpansion]. unfold SaturnParticles.lerp.
        rewrite He, Ho. ring.
    + apply IH; [exact Hn | exact Ho |].
      unfold Signal.expansion, SaturnParticles.useFrame.
      cbn [Signal.uniforms Signal.app].
      destruct (Signal.meshRef i); [| exact He].
      cbn [SaturnParticles.uExpansion]. unfold SaturnParticles.lerp.
      rewrite He, Ho. ring.
Qed.

End SignalPath.

(** ** Ticks without a reading *)

Section NoReading.

Import Smoother.

Lemma geometric_bound_cv (f : nat -> R) (C : R) :
  0 < C ->
  (forall n, 0 <= f n <= C * 0.95 ^ n) ->
  Un_cv f 0.
Proof.
  intros HC Hf eps Heps.
  assert (Hlt : Rabs 0.95 < 1) by (rewrite Rabs_pos_eq; lra).
  assert (Hq : 0 < eps / C) by (apply Rdiv_lt_0_compat; lra).
  destruct (pow_lt_1_zero 0.95 Hlt (eps / C) Hq) as [N HN].
  exists N. intros n Hn. unfold R_dist.
  destruct (Hf n) as [H0 HB]. rewrite Rminus_0_r, Rabs_pos_eq by exact H0.
  specialize (HN n Hn).
  rewrite Rabs_pos_eq in HN by (apply pow_le; lra).
  apply Rmult_lt_compat_l with (r := C) in HN; [| exact HC].
  replace (C * (eps / C)) with eps in HN by (field; lra).
  lra.
Qed.

Lemma decays_shift (k : nat) (s : State) :
  decays (S k) s = decays k (tick s noReading).
Proof. reflexivity. Qed.

(** The expansion after [k] ticks without a reading, in closed form. *)
Lemma uExpansion_decays_closed (k : nat) (s : State) :
  uExpansion (decays k s)
  = 0.9 ^ k * uExpansion s
    + 1.9 * openness s * (0.95 ^ k - 0.9 ^ k).
Proof.
  induction k as [| k IH].
  - unfold decays, run. cbn [repeat fold_left pow]. ring.
  - rewrite uExpansion_decays_S, IH. unfold SaturnParticles.lerp.
    cbn [pow]. lra.
Qed.

Lemma uExpansion_decays_bounded (k : nat) (s : State) :
  0 <= openness s ->
  0 <= uExpansion s ->
  0 <= uExpansion (decays k s)
    <= (uExpansion s + 1.9 * openness s + 1) * 0.95 ^ k.
Proof.
  intros Ho Hu. split; [apply uExpansion_decays_nonneg; assumption |].
  rewrite uExpansion_decays_closed.
  assert (H9 : 0 <= 0.9 ^ k) by (apply pow_le; lra).
  assert (H95 : 0 <= 0.95 ^ k) by (apply pow_le; lra).
  assert (Hle : 0.9 ^ k <= 0.95 ^ k) by (apply pow_incr; lra).
  nra.
Qed.

(** Once the expansion is at least the openness it stays so, and it
    falls on every further tick without a reading. *)
Lemma above_target_decreases (k : nat) (s : State) :
  0 < openness s ->
  openness s <= uExpansion s ->
  openness (decays k s) <= uExpansion (decays k s)
  /\ uExpansion (decays (S k) s) < uExpansion (decays k s).
Proof.
  intros Ho Hle.
  assert (Hpos : forall n, 0 < openness (decays n s)).
  { intros n. rewrite openness_decays. apply Rmult_lt_0_compat; [exact Ho |].
    apply pow_lt. lra. }
  assert (Hstep : forall n,
             openness (decays (S n) s) = openness (decays n s) * 0.95).
  { intros n. rewrite !openness_decays. cbn [pow]. ring. }
  assert (Hu : forall n,
             uExpansion (decays (S n) s)
             = 0.9 * uExpansion (decays n s)
               + 0.1 * openness (decays (S n) s)).
  { intros n. rewrite uExpansion_decays_S, <- openness_decays.
    unfold SaturnParticles.lerp. lra. }
  assert (Hinv : forall n, openness (decays n s) <= uExpansion (decays n s)).
  { induction n as [| n IH]; [exact Hle |].
    rewrite Hu, Hstep. pose proof (Hpos n). lra. }
  split; [apply Hinv |].
  rewrite Hu, Hstep. pose proof (Hpos k). pose proof (Hinv k). lra.
Qed.

(** A tick without a reading is the smoother's tick on [noReading]. *)
Lemma quiet_tick (s : Signal.State) (i : Signal.Input)
      (rest : list Signal.Input) :
  Signal.quiet s (i :: rest) ->
  exists s1,
    Signal.tick s i = Some s1
    /\ Signal.quiet s1 rest
    /\ of_signal s1 = tick (of_signal s) noReading.
Proof.
  cbn [Signal.quiet]. intros [(video & Hv & Hr & Hd) [Hm Hrest]].
  destruct (VisionService.detectHand
              (App.vision (Signal.app s)) video (Signal.now i))
    as [rd vs] eqn:Hcall.
  cbn [fst] in Hd. subst rd.
  destruct (tick_is_smoother_tick s i video _ vs Hv Hr Hm Hcall)
    as (s1 & Ht & Hs & _).
  rewrite Ht in Hrest. exists s1. repeat split; assumption.
Qed.

Lemma quiet_run (inputs : list Signal.Input) :
  forall s,
    Signal.quiet s inputs ->
    exists s',
      Signal.run s inputs = Some s'
      /\ of_signal s' = decays (length inputs) (of_signal s).
Proof.
  induction inputs as [| i rest IH]; intros s Hq.
  - exists s. split; reflexivity.
  - destruct (quiet_tick s i rest Hq) as (s1 & Ht & Hq1 & Hs1).
    destruct (IH s1 Hq1) as (s' & Hrun & Hs').
    exists s'. cbn [Signal.run length]. rewrite Ht.
    split; [exact Hrun |]. rewrite Hs', Hs1. symmetry. apply decays_shift.
Qed.

Lemma run_opened :
  Signal.run (Sample.started Sample.seesOpenHand) [Sample.tick0]
  = Some Sample.opened.
Proof.
  cbn [Signal.run]. unfold Signal.tick, App.loop.
  cbn [Sample.tick0 Signal.videoRef Signal.now Signal.meshRef
       Signal.elapsed Sample.video0 VisionService.readyState Nat.eqb
       Sample.started Signal.app App.vision App.openness Signal.uniforms].
  change (VisionService.initializeVision Sample.seesOpenHand
                                         VisionService.initial)
    with Sample.loaded.
  change {| VisionService.currentTime := 0; VisionService.readyState := 4 |}
    with Sample.video0.
  rewrite detectHand_loaded_video0. reflexivity.
Qed.

Lemma tick_opened :
  Signal.tick Sample.opened Sample.tick0
  = Some {| Signal.app := {| App.openness := 1 * 0.95;
                             App.vision := Sample.seen0 |};
            Signal.uniforms :=
              {| SaturnParticles.uTime := 0;
                 SaturnParticles.uExpansion :=
                   SaturnParticles.lerp (SaturnParticles.lerp 0 1 0.1)
                                        (1 * 0.95) 0.1 |} |}.
Proof.
  unfold Signal.tick, App.loop.
  cbn [Sample.tick0 Signal.videoRef Signal.now Signal.meshRef
       Signal.elapsed Sample.video0 VisionService.readyState Nat.eqb
       Sample.opened Signal.app App.vision App.openness Signal.uniforms].
  change {| VisionService.currentTime := 0; VisionService.readyState := 4 |}
    with Sample.video0.
  rewrite (detectHand_repeated _ _ _ repeated_seen0). reflexivity.
Qed.

Lemma quiet_opened : Signal.quiet Sample.opened [Sample.tick0].
Proof.
  cbn [Signal.quiet]. split; [| split].
  - exists Sample.video0. split; [reflexivity | split; [reflexivity |]].
    cbn [Sample.opened Signal.app App.vision Sample.tick0 Signal.now].
    rewrite (detectHand_repeated _ _ _ repeated_seen0). reflexivity.
  - reflexivity.
  - rewrite tick_opened. exact I.
Qed.

(** C2, as the specification has it, fails on a state the code reaches.
    An open hand appears on [Sample.video0]: the openness is 1 and the
    expansion 0.1. The next tick sees the same frame, which is a tick
    without a reading: the expansion goes to 0.185, which is neither
    [0.1 * 0.95] nor smaller than 0.1. *)
Lemma expansion_does_not_decay_geometrically :
  exists s1 s2,
    Signal.run (Sample.started Sample.seesOpenHand) [Sample.tick0] = Some s1
    /\ Signal.quiet s1 [Sample.tick0]
    /\ Signal.run s1 [Sample.tick0] = Some s2
    /\ Signal.expansion s1 = 0.1
    /\ Signal.expansion s2 = 0.185
    /\ Signal.expansion s2 <> Signal.expansion s1 * 0.95 ^ 1
    /\ Signal.expansion s1 < Signal.expansion s2.
Proof.
  eexists. eexists.
  split; [exact run_opened |].
  split; [exact quiet_opened |].
  split; [cbn [Signal.run]; rewrite tick_opened; reflexivity |].
  unfold Signal.expansion.
  cbn [Sample.opened Signal.uniforms SaturnParticles.uExpansion pow].
  unfold SaturnParticles.lerp.
  split; [lra |]. split; [lra |]. split; [intros H; lra | lra].
Qed.

(** C2, amended. A tick without a reading is one in which [loop] calls
    [detectHand] on a ready video and it reports no hand, with the mesh
    mounted. On such ticks the factor 0.95 acts on the openness held by
    [App], the target the expansion is smoothed toward, not on the
    expansion. From an openness [o0 > 0] and an expansion [e0 >= 0], after
    [k] consecutive such ticks the loop is still running, the openness is
    [o0 * 0.95 ^ k], positive and strictly decreasing in [k], and the
    expansion is [0.9 ^ k * e0 + 1.9 * o0 * (0.95 ^ k - 0.9 ^ k)]: on each
    tick it moves a tenth of the way toward the decayed openness, it never
    goes negative, and it falls on every tick once it is at least the
    openness (below the decayed openness it rises). Both converge to 0.
    A tick whose video is absent or not ready leaves the openness as it
    is. *)
Theorem no_reading_decay (s : Signal.State) (inputs : list Signal.Input) :
  Signal.quiet s inputs ->
  0 < Signal.openness s ->
  0 <= Signal.expansion s ->
  let k := length inputs in
  let o0 := Signal.openness s in
  let e0 := Signal.expansion s in
  let start := of_signal s in
  (exists s',
      Signal.run s inputs = Some s'
      /\ Signal.openness s' = o0 * 0.95 ^ k
      /\ Signal.expansion s'
         = 0.9 ^ k * e0 + 1.9 * o0 * (0.95 ^ k - 0.9 ^ k)
      /\ 0 <= Signal.expansion s'
      /\ of_signal s' = decays k start)
  /\ (forall n,
         openness (decays n start) = o0 * 0.95 ^ n
         /\ 0 < openness (decays (S n) start) < openness (decays n start)
         /\ uExpansion (decays n start)
            = 0.9 ^ n * e0 + 1.9 * o0 * (0.95 ^ n - 0.9 ^ n)
         /\ uExpansion (decays (S n) start)
            = uExpansion (decays n start)
              + 0.1 * (openness (decays (S n) start)
                       - uExpansion (decays n start))
         /\ 0 <= uExpansion (decays n start)
         /\ (o0 <= e0 ->
             uExpansion (decays (S n) start) < uExpansion (decays n start)))
  /\ Un_cv (fun n => openness (decays n start)) 0
  /\ Un_cv (fun n => uExpansion (decays n start)) 0
  /\ (forall i : Signal.Input,
         Signal.videoRef i = None
         \/ (exists video,
                Signal.videoRef i = Some video
                /\ VisionService.readyState video <> 4%nat) ->
         exists s1,
           Signal.tick s i = Some s1 /\ Signal.openness s1 = o0).
Proof.
  intros Hq Ho He k o0 e0 start.
  assert (Hos : openness start = o0) by reflexivity.
  assert (Hes : uExpansion start = e0) by reflexivity.
  change (0 < o0) in Ho. change (0 <= e0) in He. clearbody o0 e0.
  assert (Hpow : forall n, 0 < 0.95 ^ n) by (intros n; apply pow_lt; lra).
  assert (Hopen : forall n, 0 < openness (decays n start)).
  { intros n. rewrite openness_decays, Hos.
    apply Rmult_lt_0_compat; [exact Ho | apply Hpow]. }
  split; [| split; [| split; [| split]]].
  - destruct (quiet_run inputs s Hq) as (s' & Hrun & Hs').
    fold k start in Hs'. exists s'. split; [exact Hrun |].
    assert (Hopn : Signal.openness s' = openness (decays k start))
      by (rewrite <- Hs'; reflexivity).
    assert (Hexp : Signal.expansion s' = uExpansion (decays k start))
      by (rewrite <- Hs'; reflexivity).
    rewrite Hopn, Hexp, openness_decays, uExpansion_decays_closed, Hos, Hes.
    split; [reflexivity |]. split; [reflexivity |].
    split; [| exact Hs'].
    rewrite <- Hes, <- Hos, <- uExpansion_decays_closed.
    apply uExpansion_decays_nonneg; rewrite ?Hos, ?Hes; [lra | exact He].
  - intros n.
    split; [rewrite openness_decays, Hos; reflexivity |].
    split.
    { split; [apply Hopen |].
      rewrite !openness_decays, Hos. cbn [pow].
      pose proof (Hpow n).
      assert (0 < o0 * 0.95 ^ n) by (apply Rmult_lt_0_compat; lra).
      lra. }
    split; [rewrite uExpansion_decays_closed, Hos, Hes; reflexivity |].
    split.
    { rewrite uExpansion_decays_S, <- openness_decays. apply lerp_tenth. }
    split.
    { apply uExpansion_decays_nonneg; rewrite ?Hos, ?Hes; [lra | exact He]. }
    intros Hle. apply above_target_decreases; rewrite ?Hos, ?Hes; assumption.
  - apply geometric_bound_cv with (C := o0); [exact Ho |].
    intros n. rewrite openness_decays, Hos.
    pose proof (Hpow n).
    assert (0 < o0 * 0.95 ^ n) by (apply Rmult_lt_0_compat; lra).
    lra.
  - apply geometric_bound_cv with (C := e0 + 1.9 * o0 + 1); [lra |].
    intros n. rewrite <- Hes, <- Hos.
    apply uExpansion_decays_bounded; rewrite ?Hos, ?Hes; [lra | exact He].
  - intros i Hidle. rewrite <- Hos. unfold Signal.tick, App.loop.
    destruct Hidle as [Hnone | (video & Hv & Hnr)].
    + rewrite Hnone. eexists. split; reflexivity.
    + rewrite Hv. apply Nat.eqb_neq in Hnr. rewrite Hnr.
      eexists. split; reflexivity.
Qed.

Lemma no_reading_decay_witness :
  Signal.quiet Sample.opened [Sample.tick0]
  /\ 0 < Signal.openness Sample.opened
  /\ 0 <= Signal.expansion Sample.opened
  /\ exists s',
      Signal.run Sample.opened [Sample.tick0] = Some s'
      /\ Signal.openness s' = Signal.openness Sample.opened * 0.95 ^ 1.
Proof.
  assert (Ho : 0 < Signal.openness Sample.opened)
    by (unfold Signal.openness; simpl; lra).
  assert (He : 0 <= Signal.expansion Sample.opened).
  { unfold Signal.expansion. simpl. unfold SaturnParticles.lerp. lra. }
  split; [exact quiet_opened | split; [exact Ho | split; [exact He |]]].
  destruct (no_reading_decay Sample.opened [Sample.tick0]
                             quiet_opened Ho He)
    as ((s' & Hrun & Hopn & _) & _).
  exists s'. split; [exact Hrun | exact Hopn].
Defined.

End NoReading.

(** * Further properties of the code *)

(** ** More on the extractor *)

Section ExtractorMore.

Import VisionService.

Lemma opennessOf_Some_wellFormed (landmarks : list NormalizedLandmark) o :
  opennessOf landmarks = Some o -> wellFormed landmarks.
Proof.
  intros H. unfold wellFormed.
  destruct (Nat.lt_ge_cases 20 (length landmarks)) as [Hlt | Hge];
    [exact Hlt |].
  rewrite opennessOf_malformed in H by lia. discriminate.
Qed.

(** X1. Whatever the module state, the frame and the detector are, a
    reading returned by [detectHand] has its openness in [0, 1], and the
    openness is 0 when no hand is reported. *)
Theorem detectHand_reading_bounded st video now rd st' :
  detectHand st video now = (Some rd, st') ->
  0 <= openness rd <= 1
  /\ (isDetected rd = false -> openness rd = 0).
Proof.
  intros H. split; [exact (detectHand_range _ _ _ _ _ H) |].
  revert H. unfold detectHand.
  destruct (handLandmarker st) as [hl |];
    [| intros H _; inversion H; reflexivity].
  destruct (Req_dec_T (currentTime video) (lastVideoTime st));
    [intros H _; inversion H; reflexivity |].
  destruct (hl video now) as [[| landmarks rest] |];
    try (intros H _; inversion H; reflexivity).
  destruct (opennessOf landmarks); intros H; inversion H; subst.
  cbn [isDetected]. discriminate.
Qed.

Lemma detectHand_reading_bounded_witness :
  detectHand Sample.loaded Sample.video0 0
  = (Some {| openness := 1; isDetected := true |}, Sample.seen0)
  /\ 0 <= 1 <= 1.
Proof.
  split; [exact detectHand_loaded_video0 |].
  apply (detectHand_reading_bounded _ _ _ _ _ detectHand_loaded_video0).
Defined.

(** X2. [detectHand] never reports a hand on its own: when [isDetected] is
    true the detector was loaded, the frame's timestamp differed from the
    stored one, the detector returned at least one hand, the first hand
    had all landmarks up to index 20, the openness is the one computed
    from it, and the frame's timestamp is now the stored one. *)
Theorem detection_comes_from_detector st video now rd st' :
  detectHand st video now = (Some rd, st') ->
  isDetected rd = true ->
  exists landmarks,
    detects st video now landmarks
    /\ wellFormed landmarks
    /\ opennessOf landmarks = Some (openness rd)
    /\ lastVideoTime st' = currentTime video
    /\ handLandmarker st' = handLandmarker st.
Proof.
  unfold detectHand, detects, repeated.
  destruct (handLandmarker st) as [hl |] eqn:Hhl;
    [| intros H Hd; inversion H; subst; discriminate].
  destruct (Req_dec_T (currentTime video) (lastVideoTime st)) as [| Hne];
    [intros H Hd; inversion H; subst; discriminate |].
  destruct (hl video now) as [[| landmarks rest] |] eqn:Hres;
    try (intros H Hd; inversion H; subst; discriminate).
  destruct (opennessOf landmarks) as [o |] eqn:Ho; [| discriminate].
  intros H _. inversion H; subst. exists landmarks.
  split; [split; [exact Hne | exists hl, rest; split; [reflexivity | exact Hres]] |].
  split; [exact (opennessOf_Some_wellFormed _ _ Ho) |].
  repeat split. exact Ho.
Qed.

Lemma detection_comes_from_detector_witness :
  exists landmarks,
    detects Sample.loaded Sample.video0 0 landmarks
    /\ wellFormed landmarks
    /\ opennessOf landmarks = Some 1.
Proof.
  destruct (detection_comes_from_detector
              _ _ _ _ _ detectHand_loaded_video0 eq_refl)
    as (landmarks & Hd & Hwf & Ho & _).
  exists landmarks. repeat split; try assumption. apply Hd. apply Hd.
Defined.

(** X3. A hand reported with fewer than 21 landmarks makes [detectHand]
    throw after it has stored the frame's timestamp, and the exception
    ends [loop]: nothing is scheduled after it. *)
Theorem short_hand_stops_the_loop
        (app : App.State) (video : HTMLVideoElement) (now : R)
        (landmarks : list NormalizedLandmark) :
  detects (App.vision app) video now landmarks ->
  (length landmarks <= 20)%nat ->
  readyState video = 4%nat ->
  fst (detectHand (App.vision app) video now) = None
  /\ lastVideoTime (snd (detectHand (App.vision app) video now))
     = currentTime video
  /\ App.loop app (Some video) now = None.
Proof.
  intros [Hfresh (hl & rest & Hhl & Hres)] Hlen Hready.
  unfold repeated in Hfresh.
  assert (Hd : detectHand (App.vision app) video now
               = (None, {| handLandmarker := Some hl;
                           lastVideoTime := currentTime video |})).
  { unfold detectHand. rewrite Hhl.
    destruct (Req_dec_T (currentTime video) (lastVideoTime (App.vision app)));
      [contradiction |].
    rewrite Hres, (opennessOf_malformed _ Hlen). reflexivity. }
  rewrite Hd. cbn [fst snd lastVideoTime]. repeat split.
  unfold App.loop. rewrite Hready, Hd. reflexivity.
Qed.

Lemma short_hand_stops_the_loop_witness :
  App.loop {| App.openness := 0;
              App.vision := initializeVision Sample.seesStub initial |}
           (Some Sample.video0) 0
  = None.
Proof.
  apply (short_hand_stops_the_loop
           {| App.openness := 0;
              App.vision := initializeVision Sample.seesStub initial |}
           Sample.video0 0 Sample.stub).
  - split.
    + unfold repeated. simpl. lra.
    + exists Sample.seesStub, []. split; reflexivity.
  - simpl. lia.
  - reflexivity.
Defined.





End ExtractorMore.

Section ExtractorGeometry.

Import VisionService.

Lemma getDist_translate dx dy p q :
  getDist (translate dx dy p) (translate dx dy q) = getDist p q.
Proof.
  unfold getDist, translate. cbn [x y]. f_equal. ring.
Qed.

Lemma getDist_magnify k p q :
  0 <= k -> getDist (magnify k p) (magnify k q) = k * getDist p q.
Proof.
  intros Hk. unfold getDist, magnify. cbn [x y].
  replace ((k * x p - k * x q) ^ 2 + (k * y p - k * y q) ^ 2)
    with ((k * k) * ((x p - x q) ^ 2 + (y p - y q) ^ 2)) by ring.
  rewrite sqrt_mult_alt by (apply Rmult_le_pos; exact Hk).
  rewrite sqrt_square by exact Hk. reflexivity.
Qed.

Lemma getDist_nonneg p q : 0 <= getDist p q.
Proof. apply sqrt_pos. Qed.

Lemma normalize_mono (u v : R) : u <= v -> normalize u <= normalize v.
Proof.
  intros Huv. unfold normalize, minVal, maxVal.
  apply Rle_max_compat_l. apply Rle_min_compat_l.
  unfold Rdiv. apply Rmult_le_compat_r.
  - left. apply Rinv_0_lt_compat. lra.
  - lra.
Qed.

(** The six landmarks the extractor reads, when they are all there. *)
Lemma opennessOf_cases (landmarks : list NormalizedLandmark) :
  (exists w t1 t2 t3 t4 t5,
      nth_error landmarks 0 = Some w /\ nth_error landmarks 4 = Some t1
      /\ nth_error landmarks 8 = Some t2 /\ nth_error landmarks 12 = Some t3
      /\ nth_error landmarks 16 = Some t4
      /\ nth_error landmarks 20 = Some t5
      /\ opennessOf landmarks
         = Some (normalize (avgDist w t1 t2 t3 t4 t5)))
  \/ ((length landmarks <= 20)%nat /\ opennessOf landmarks = None).
Proof.
  destruct (Nat.lt_ge_cases 20 (length landmarks)) as [Hlt | Hge].
  - left.
    assert (Hin : forall k, (k <= 20)%nat ->
                            exists p, nth_error landmarks k = Some p).
    { intros k Hk. destruct (nth_error landmarks k) eqn:E; [eauto |].
      apply nth_error_None in E. lia. }
    destruct (Hin 0%nat ltac:(lia)) as [w Hw].
    destruct (Hin 4%nat ltac:(lia)) as [t1 H1].
    destruct (Hin 8%nat ltac:(lia)) as [t2 H2].
    destruct (Hin 12%nat ltac:(lia)) as [t3 H3].
    destruct (Hin 16%nat ltac:(lia)) as [t4 H4].
    destruct (Hin 20%nat ltac:(lia)) as [t5 H5].
    exists w, t1, t2, t3, t4, t5. unfold opennessOf.
    rewrite Hw, H1, H2, H3, H4, H5. repeat split.
  - right. split; [exact Hge | apply opennessOf_malformed; exact Hge].
Qed.

Lemma opennessOf_map_Some (f : NormalizedLandmark -> NormalizedLandmark)
      (landmarks : list NormalizedLandmark) w t1 t2 t3 t4 t5 :
  nth_error landmarks 0 = Some w -> nth_error landmarks 4 = Some t1 ->
  nth_error landmarks 8 = Some t2 -> nth_error landmarks 12 = Some t3 ->
  nth_error landmarks 16 = Some t4 -> nth_error landmarks 20 = Some t5 ->
  opennessOf (map f landmarks)
  = Some (normalize (avgDist (f w) (f t1) (f t2) (f t3) (f t4) (f t5))).
Proof.
  intros Hw H1 H2 H3 H4 H5. unfold opennessOf.
  rewrite !nth_error_map, Hw, H1, H2, H3, H4, H5. reflexivity.
Qed.

Lemma meanTipDistance_avgDist (landmarks : list NormalizedLandmark)
      w t1 t2 t3 t4 t5 :
  nth_error landmarks 0 = Some w -> nth_error landmarks 4 = Some t1 ->
  nth_error landmarks 8 = Some t2 -> nth_error landmarks 12 = Some t3 ->
  nth_error landmarks 16 = Some t4 -> nth_error landmarks 20 = Some t5 ->
  meanTipDistance landmarks = avgDist w t1 t2 t3 t4 t5.
Proof.
  intros Hw H1 H2 H3 H4 H5. unfold meanTipDistance, tips.
  cbn [map fold_right].
  rewrite (nth_error_nth _ _ _ Hw), (nth_error_nth _ _ _ H1),
    (nth_error_nth _ _ _ H2), (nth_error_nth _ _ _ H3),
    (nth_error_nth _ _ _ H4), (nth_error_nth _ _ _ H5).
  unfold avgDist, getDist. cbn [pow]. rewrite !Rmult_1_r, Rplus_0_r.
  f_equal. ring.
Qed.

(** X5. The reading does not depend on where the hand is in the image:
    moving every landmark by the same offset leaves the result of the
    openness computation unchanged, including the case where it throws. *)
Theorem openness_ignores_position
        (dx dy : R) (landmarks : list NormalizedLandmark) :
  opennessOf (map (translate dx dy) landmarks) = opennessOf landmarks.
Proof.
  destruct (opennessOf_cases landmarks)
    as [(w & t1 & t2 & t3 & t4 & t5 & Hw & H1 & H2 & H3 & H4 & H5 & Ho)
       | [Hlen Ho]].
  - rewrite Ho,
      (opennessOf_map_Some _ _ _ _ _ _ _ _ Hw H1 H2 H3 H4 H5).
    unfold avgDist. rewrite !getDist_translate. reflexivity.
  - rewrite Ho. apply opennessOf_malformed. rewrite length_map. exact Hlen.
Qed.

(** X6. The reading grows with the apparent size of the hand: magnifying
    a well-formed hand by [k >= 0] multiplies the mean fingertip distance
    by [k], so a larger magnification never gives a smaller openness. *)
Theorem openness_grows_with_size
        (k1 k2 : R) (landmarks : list NormalizedLandmark) :
  wellFormed landmarks ->
  0 <= k1 -> k1 <= k2 ->
  exists o1 o2,
    opennessOf (map (magnify k1) landmarks) = Some o1
    /\ opennessOf (map (magnify k2) landmarks) = Some o2
    /\ o1 <= o2
    /\ o1 = normalize (k1 * meanTipDistance landmarks)
    /\ o2 = normalize (k2 * meanTipDistance landmarks).
Proof.
  intros Hwf Hk1 Hk12.
  destruct (opennessOf_cases landmarks)
    as [(w & t1 & t2 & t3 & t4 & t5 & Hw & H1 & H2 & H3 & H4 & H5 & Ho)
       | [Hlen _]]; [| unfold wellFormed in Hwf; lia].
  assert (Hm := meanTipDistance_avgDist _ _ _ _ _ _ _ Hw H1 H2 H3 H4 H5).
  assert (Hscale : forall k, 0 <= k ->
            opennessOf (map (magnify k) landmarks)
            = Some (normalize (k * meanTipDistance landmarks))).
  { intros k Hk.
    rewrite (opennessOf_map_Some _ _ _ _ _ _ _ _ Hw H1 H2 H3 H4 H5).
    unfold avgDist at 1. rewrite !getDist_magnify by exact Hk.
    rewrite Hm. unfold avgDist. do 2 f_equal. field. }
  exists (normalize (k1 * meanTipDistance landmarks)),
    (normalize (k2 * meanTipDistance landmarks)).
  split; [apply Hscale; exact Hk1 |].
  split; [apply Hscale; lra |].
  split; [| split; reflexivity].
  apply normalize_mono. apply Rmult_le_compat_r; [| exact Hk12].
  rewrite Hm. unfold avgDist.
  pose proof (getDist_nonneg t1 w). pose proof (getDist_nonneg t2 w).
  pose proof (getDist_nonneg t3 w). pose proof (getDist_nonneg t4 w).
  pose proof (getDist_nonneg t5 w). lra.
Qed.

Lemma openness_grows_with_size_witness :
  wellFormed Sample.openHand /\ 0 <= 0.1 /\ 0.1 <= 1
  /\ exists o1 o2,
      opennessOf (map (magnify 0.1) Sample.openHand) = Some o1
      /\ opennessOf (map (magnify 1) Sample.openHand) = Some o2
      /\ o1 <= o2.
Proof.
  split; [exact wellFormed_openHand | split; [lra | split; [lra |]]].
  destruct (openness_grows_with_size 0.1 1 Sample.openHand
              wellFormed_openHand ltac:(lra) ltac:(lra))
    as (o1 & o2 & H1 & H2 & Hle & _).
  exists o1, o2. repeat split; assumption.
Defined.

End ExtractorGeometry.

(** ** More on the loop and the signal path *)

Section LoopMore.

Import VisionService.

Lemma run_inRange_both (inputs : list Signal.Input) :
  forall s s',
    Smoother.inRange (Smoother.of_signal s) ->
    Signal.run s inputs = Some s' ->
    Smoother.inRange (Smoother.of_signal s').
Proof.
  induction inputs as [| i rest IH]; intros s s' Hs.
  - intros H. inversion H; subst. exact Hs.
  - cbn [Signal.run].
    destruct (Signal.tick s i) as [s1 |] eqn:Ht; [| discriminate].
    apply IH. exact (tick_inRange_signal _ _ _ Hs Ht).
Qed.

(** A detector that always sees the hand [landmarks], fed fresh frames. *)
Lemma tick_sees (hl : HandLandmarker) (landmarks : list NormalizedLandmark)
      (s : Signal.State) (i : Signal.Input) (video : HTMLVideoElement) :
  sees hl landmarks ->
  wellFormed landmarks ->
  handLandmarker (App.vision (Signal.app s)) = Some hl ->
  Signal.videoRef i = Some video ->
  readyState video = 4%nat ->
  currentTime video <> lastVideoTime (App.vision (Signal.app s)) ->
  Signal.meshRef i = true ->
  let v := normalize (meanTipDistance landmarks) in
  Signal.tick s i
  = Some {| Signal.app :=
              {| App.openness := v;
                 App.vision := {| handLandmarker := Some hl;
                                  lastVideoTime := currentTime video |} |};
            Signal.uniforms :=
              {| SaturnParticles.uTime := Signal.elapsed i;
                 SaturnParticles.uExpansion :=
                   SaturnParticles.lerp (Signal.expansion s) v 0.1 |} |}.
Proof.
  intros Hsees Hwf Hhl Hv Hr Hne Hm v.
  destruct (Hsees video (Signal.now i)) as [rest Hres].
  unfold Signal.tick, App.loop. rewrite Hv, Hr. cbn [Nat.eqb].
  unfold detectHand. rewrite Hhl.
  destruct (Req_dec_T (currentTime video)
                      (lastVideoTime (App.vision (Signal.app s))));
    [contradiction |].
  rewrite Hres, (opennessOf_wellFormed _ Hwf), Hm. reflexivity.
Qed.

(** X7. From the start of a session (both scalars 0, any detector state),
    whatever the frames, clocks and detector answers are, if the loop is
    still running after a sequence of ticks then the expansion handed to
    the shader and the openness shown on screen are both in [0, 1]. *)
Theorem session_scalars_bounded
        (vs : State) (inputs : list Signal.Input) (s' : Signal.State) :
  Signal.run {| Signal.app := {| App.openness := 0; App.vision := vs |};
                Signal.uniforms := SaturnParticles.uniforms |} inputs
  = Some s' ->
  0 <= Signal.expansion s' <= 1 /\ 0 <= Signal.openness s' <= 1.
Proof.
  intros Hrun.
  assert (H0 : Smoother.inRange
                 (Smoother.of_signal
                    {| Signal.app := {| App.openness := 0;
                                        App.vision := vs |};
                       Signal.uniforms := SaturnParticles.uniforms |})).
  { unfold Smoother.inRange, Smoother.of_signal, Signal.openness,
      Signal.expansion. simpl. lra. }
  destruct (run_inRange_both inputs _ _ H0 Hrun) as [Ho Hu].
  split; assumption.
Qed.

Lemma run_tick0 :
  Signal.run (Sample.started Sample.seesOpenHand) [Sample.tick0]
  = Some {| Signal.app :=
              {| App.openness := 1; App.vision := Sample.seen0 |};
            Signal.uniforms :=
              {| SaturnParticles.uTime := 0;
                 SaturnParticles.uExpansion :=
                   SaturnParticles.lerp 0 1 0.1 |} |}.
Proof.
  cbn [Signal.run]. unfold Signal.tick, App.loop.
  cbn [Sample.tick0 Signal.videoRef Signal.now Signal.meshRef
       Signal.elapsed Sample.video0 readyState Nat.eqb
       Sample.started Signal.app App.vision App.openness Signal.uniforms].
  change (initializeVision Sample.seesOpenHand initial) with Sample.loaded.
  change {| currentTime := 0; readyState := 4 |} with Sample.video0.
  rewrite detectHand_loaded_video0. reflexivity.
Qed.

Lemma session_scalars_bounded_witness :
  exists s',
    Signal.run (Sample.started Sample.seesOpenHand) [Sample.tick0]
    = Some s'
    /\ 0 <= Signal.expansion s' <= 1.
Proof.
  eexists. split; [exact run_tick0 |].
  apply (session_scalars_bounded
           (initializeVision Sample.seesOpenHand initial)
           [Sample.tick0] _ run_tick0).
Defined.

(** X8. A session in which the detector never finds a hand (or is never
    loaded) runs forever and keeps the openness and the expansion at 0:
    chaos does not start by itself. *)
Theorem no_hand_no_chaos (inputs : list Signal.Input) (s : Signal.State) :
  (forall hl, handLandmarker (App.vision (Signal.app s)) = Some hl ->
              blind hl) ->
  Signal.openness s = 0 ->
  Signal.expansion s = 0 ->
  exists s',
    Signal.run s inputs = Some s'
    /\ Signal.openness s' = 0 /\ Signal.expansion s' = 0.
Proof.
  revert s. induction inputs as [| i rest IH]; intros s Hblind Ho He.
  - exists s. repeat split; assumption.
  - cbn [Signal.run].
    assert (Hloop : exists a,
               App.loop (Signal.app s) (Signal.videoRef i) (Signal.now i)
               = Some a
               /\ App.openness a = 0
               /\ handLandmarker (App.vision a)
                  = handLandmarker (App.vision (Signal.app s))).
    { unfold App.loop. unfold Signal.openness in Ho.
      destruct (Signal.videoRef i) as [video |]; [| eauto].
      destruct (Nat.eqb (readyState video) 4); [| eauto].
      unfold detectHand.
      destruct (handLandmarker (App.vision (Signal.app s))) as [hl |] eqn:Hhl.
      2:{ eexists. split; [reflexivity |].
          cbn [App.openness App.vision App.updater notDetected isDetected].
          rewrite Ho, Hhl. split; [ring | reflexivity]. }
      destruct (Req_dec_T (currentTime video)
                          (lastVideoTime (App.vision (Signal.app s)))).
      { eexists. split; [reflexivity |].
        cbn [App.openness App.vision App.updater notDetected isDetected].
        rewrite Ho, Hhl. split; [ring | reflexivity]. }
      destruct (Hblind hl eq_refl video (Signal.now i)) as [Hres | Hres];
        rewrite Hres; eexists; (split; [reflexivity |]);
        cbn [App.openness App.vision App.updater notDetected isDetected
             handLandmarker];
        rewrite Ho; (split; [ring | reflexivity]). }
    destruct Hloop as (a & Hl & Ha & Hsame).
    unfold Signal.tick. rewrite Hl.
    apply IH.
    + cbn [Signal.app]. rewrite Hsame. exact Hblind.
    + exact Ha.
    + unfold Signal.expansion in *. cbn [Signal.uniforms].
      unfold SaturnParticles.useFrame.
      destruct (Signal.meshRef i); [| exact He].
      cbn [SaturnParticles.uExpansion]. unfold SaturnParticles.lerp.
      rewrite He, Ha. ring.
Qed.

Lemma blind_seesNothing : blind Sample.seesNothing.
Proof. intros video now. right. reflexivity. Qed.

Lemma no_hand_no_chaos_witness :
  exists s',
    Signal.run (Sample.started Sample.seesNothing)
               [Sample.tick0; Sample.tick1] = Some s'
    /\ Signal.openness s' = 0 /\ Signal.expansion s' = 0.
Proof.
  apply (no_hand_no_chaos [Sample.tick0; Sample.tick1]
                          (Sample.started Sample.seesNothing)).
  - intros hl Hhl. cbn in Hhl. inversion Hhl; subst.
    exact blind_seesNothing.
  - reflexivity.
  - reflexivity.
Defined.

(** X9. A hand held still in front of a detector that sees it in every
    fresh frame: after [n] ticks the openness is the hand's reading [v]
    and the expansion has closed the gap to [v] by the factor [0.9 ^ n];
    the loop never stops. *)
Theorem steady_hand_converges
        (hl : HandLandmarker) (landmarks : list NormalizedLandmark)
        (inputs : list Signal.Input) (s : Signal.State) :
  sees hl landmarks ->
  wellFormed landmarks ->
  handLandmarker (App.vision (Signal.app s)) = Some hl ->
  Signal.fresh (lastVideoTime (App.vision (Signal.app s))) inputs ->
  let v := normalize (meanTipDistance landmarks) in
  exists s',
    Signal.run s inputs = Some s'
    /\ Signal.expansion s' - v
       = 0.9 ^ length inputs * (Signal.expansion s - v)
    /\ (inputs <> [] -> Signal.openness s' = v).
Proof.
  intros Hsees Hwf. revert s.
  induction inputs as [| i rest IH]; intros s Hhl Hfresh v.
  - exists s. split; [reflexivity |]. split; [cbn [length pow]; ring |].
    intros H; contradiction H; reflexivity.
  - destruct Hfresh as (video & Hv & Hr & Hne & Hm & Hrest).
    pose proof (tick_sees hl landmarks s i video
                          Hsees Hwf Hhl Hv Hr Hne Hm) as Ht.
    cbv zeta in Ht. fold v in Ht. cbn [Signal.run]. rewrite Ht.
    match goal with
    | |- context [Signal.run ?s1 rest] =>
        destruct (IH s1 eq_refl Hrest) as (s' & Hrun & Hexp & Hop)
    end.
    fold v in Hexp, Hop. exists s'. split; [exact Hrun |].
    split.
    + rewrite Hexp. unfold Signal.expansion at 1.
      cbn [Signal.uniforms SaturnParticles.uExpansion length pow].
      unfold SaturnParticles.lerp. lra.
    + intros _. destruct rest as [| j rest'].
      * cbn [Signal.run] in Hrun. inversion Hrun; subst. reflexivity.
      * apply Hop. discriminate.
Qed.

Lemma sees_openHand : sees Sample.seesOpenHand Sample.openHand.
Proof. intros video now. exists []. reflexivity. Qed.

Lemma fresh_ticks :
  Signal.fresh (lastVideoTime
                  (App.vision (Signal.app
                                 (Sample.started Sample.seesOpenHand))))
               [Sample.tick0; Sample.tick1].
Proof.
  cbn [Signal.fresh]. exists Sample.video0.
  repeat split; try reflexivity.
  - simpl. lra.
  - exists Sample.video1. repeat split; try reflexivity. simpl. lra.
Qed.

Lemma steady_hand_converges_witness :
  exists s',
    Signal.run (Sample.started Sample.seesOpenHand)
               [Sample.tick0; Sample.tick1] = Some s'
    /\ Signal.expansion s' = 0.19 /\ Signal.openness s' = 1.
Proof.
  destruct (steady_hand_converges
              Sample.seesOpenHand Sample.openHand
              [Sample.tick0; Sample.tick1]
              (Sample.started Sample.seesOpenHand)
              sees_openHand wellFormed_openHand eq_refl fresh_ticks)
    as (s' & Hrun & Hexp & Hop).
  exists s'. split; [exact Hrun |].
  rewrite meanTipDistance_openHand, normalize_open in Hexp, Hop by lra.
  split; [| apply Hop; discriminate].
  cbn [length pow] in Hexp.
  change (Signal.expansion (Sample.started Sample.seesOpenHand))
    with 0 in Hexp.
  lra.
Defined.

End LoopMore.

Section AppMore.

Import VisionService.

(** X10. While the video shows the frame that was processed last (a
    paused or slow video), every run of [loop] multiplies the openness by
    0.95 and leaves the vision module alone: after [m] runs the openness
    is [openness * 0.95 ^ m], however open the hand is. *)
Theorem held_frame_fades
        (m : nat) (app : App.State) (video : HTMLVideoElement) (now : R) :
  repeated (App.vision app) video ->
  readyState video = 4%nat ->
  App.loops m app (Some video) now
  = Some {| App.openness := App.openness app * 0.95 ^ m;
            App.vision := App.vision app |}.
Proof.
  intros Hrep Hready. revert app Hrep.
  induction m as [| m IH]; intros app Hrep.
  - cbn [App.loops pow]. rewrite Rmult_1_r. destruct app; reflexivity.
  - cbn [App.loops]. unfold App.loop at 1. rewrite Hready. cbn [Nat.eqb].
    rewrite detectHand_repeated by exact Hrep.
    cbn [App.updater notDetected isDetected openness].
    rewrite IH by exact Hrep. cbn [App.openness App.vision pow].
    do 2 f_equal. ring.
Qed.

Lemma held_frame_fades_witness :
  App.loops 2 Sample.appOpen (Some Sample.video0) 0
  = Some {| App.openness := App.openness Sample.appOpen * 0.95 ^ 2;
            App.vision := App.vision Sample.appOpen |}.
Proof.
  apply (held_frame_fades 2 Sample.appOpen Sample.video0 0);
    reflexivity.
Defined.

(** X11. How [startCamera] can end: the loop is started exactly when the
    state becomes [RUNNING], and then the detector is loaded; the state is
    [ERROR] exactly when creating the detector or opening the camera
    failed; otherwise the application stays in [LOADING]. It never goes
    back to [IDLE], and the stored timestamp is not touched. *)
Theorem startCamera_outcomes (vs : State) (env : App.Camera) :
  let s := App.startCamera vs env in
  (App.looping s = true <-> App.appState s = App.RUNNING)
  /\ (App.appState s = App.RUNNING ->
      ready (App.visionState s)
      /\ handLandmarker (App.visionState s) = App.visionCreated env
      /\ App.streamGranted env = true
      /\ App.videoMounted env = true /\ App.dataLoaded env = true)
  /\ (App.appState s = App.ERROR <->
      App.visionCreated env = None \/ App.streamGranted env = false)
  /\ App.appState s <> App.IDLE
  /\ lastVideoTime (App.visionState s) = lastVideoTime vs.
Proof.
  unfold App.startCamera, ready.
  destruct env as [[hl |] granted mounted loaded];
    destruct granted, mounted, loaded;
    cbn [App.visionCreated App.streamGranted App.videoMounted
         App.dataLoaded andb App.appState App.looping App.visionState
         initializeVision handLandmarker lastVideoTime];
    repeat split; intros; try discriminate; try reflexivity;
    try (left; reflexivity); try (right; reflexivity);
    try match goal with
        | H : _ \/ _ |- _ => destruct H; discriminate
        end.
Qed.

(** X12. In the rendered scene the critical-mass display (openness above
    0.8, with the stronger noise) and the automatic rotation (running and
    openness below 0.2) are never on together, and the noise opacity is
    0.2 in the first case and 0.05 otherwise. *)
Theorem critical_and_autorotate_exclusive (st : App.AppState) (o : R) :
  (App.critical o = true -> App.autoRotate st o = false)
  /\ (App.autoRotate st o = true -> st = App.RUNNING /\ o < 0.2)
  /\ (App.critical o = true <-> 0.8 < o)
  /\ (App.noiseOpacity o = 0.2 <-> 0.8 < o)
  /\ (App.noiseOpacity o = 0.05 <-> o <= 0.8).
Proof.
  unfold App.critical, App.autoRotate, App.noiseOpacity, App.critical.
  destruct (Rlt_dec 0.8 o) as [Hc | Hc];
    destruct (Rlt_dec o 0.2) as [Ha | Ha]; destruct st;
    repeat split; intros; try discriminate; try reflexivity; try lra.
Qed.

Lemma Math_round_near (v : R) :
  IZR (App.Math_round v) - 0.5 <= v < IZR (App.Math_round v) + 0.5.
Proof.
  unfold App.Math_round.
  destruct (base_Int_part (v + 0.5)) as [Hle Hgt]. lra.
Qed.

(** X13. The percentage shown next to the status text is the integer
    nearest to [openness * 100], and for an openness in [0, 1] it is
    between 0 and 100. *)
Theorem percent_shown_bounded (o : R) :
  0 <= o <= 1 ->
  (0 <= App.percent o <= 100)%Z
  /\ IZR (App.percent o) - 0.5 <= o * 100 < IZR (App.percent o) + 0.5.
Proof.
  intros Ho. unfold App.percent.
  pose proof (Math_round_near (o * 100)) as [Hlo Hhi].
  split; [| split; assumption].
  split.
  - apply Z.lt_succ_r. apply lt_IZR. rewrite succ_IZR. lra.
  - apply Z.lt_succ_r. apply lt_IZR. rewrite succ_IZR. lra.
Qed.

Lemma percent_shown_bounded_witness :
  0 <= 0.5 <= 1 /\ (0 <= App.percent 0.5 <= 100)%Z.
Proof.
  split; [lra |]. apply (percent_shown_bounded 0.5). lra.
Defined.

End AppMore.

(** ** More on the shaders *)

Section ShaderMore.

Import SaturnParticles.

Lemma sin_cos_square (a : R) : cos a * cos a + sin a * sin a = 1.
Proof. pose proof (sin2_cos2 a) as H. unfold Rsqr in H. lra. Qed.

Lemma chaosFactor_range (e : R) : 0 <= chaosFactor e <= 1.
Proof.
  unfold chaosFactor, chaosThreshold. split.
  - destruct (Rle_lt_dec e 0.7) as [Hle | Hgt].
    + rewrite smoothstep_below by exact Hle. lra.
    + rewrite <- (smoothstep_below 0.7) by lra. apply smoothstep_mono. lra.
  - destruct (Rle_lt_dec e 1) as [Hle | Hgt].
    + rewrite <- smoothstep_top at 2. apply smoothstep_mono. exact Hle.
    + unfold smoothstep. cbv zeta.
      pose proof (clamp_range ((e - 0.7) / (1 - 0.7)) 0 1 ltac:(lra)) as Hc.
      set (t := clamp ((e - 0.7) / (1 - 0.7)) 0 1) in *.
      assert (H := hermite_mono t 1 ltac:(lra) ltac:(lra) ltac:(lra)). lra.
Qed.

Lemma orbitalPos_on_ring (p : Attributes) (t : R) :
  vx (orbitalPos p t) * vx (orbitalPos p t)
  + vz (orbitalPos p t) * vz (orbitalPos p t)
  = orbitRadius p * orbitRadius p.
Proof.
  unfold orbitalPos. cbv zeta. cbn [vx vy vz].
  set (a := currentAngle p t).
  replace (cos a * orbitRadius p * (cos a * orbitRadius p)
           + sin a * orbitRadius p * (sin a * orbitRadius p))
    with ((cos a * cos a + sin a * sin a)
          * (orbitRadius p * orbitRadius p)) by ring.
  rewrite sin_cos_square. ring.
Qed.

(** X14. Without chaos, a particle moves on the cylinder of radius
    [orbitRadius] around the vertical axis and stays within a tenth of
    that radius of the orbital plane, at every time. *)
Theorem orbit_stays_on_its_ring (p : Attributes) (t : R) :
  vx (orbitalPos p t) * vx (orbitalPos p t)
  + vz (orbitalPos p t) * vz (orbitalPos p t)
  = orbitRadius p * orbitRadius p
  /\ Rabs (vy (orbitalPos p t)) <= 0.1 * Rabs (orbitRadius p).
Proof.
  split; [apply orbitalPos_on_ring |].
  unfold orbitalPos. cbv zeta. cbn [vx vy vz].
  set (a := currentAngle p t).
  rewrite !Rabs_mult, (Rabs_pos_eq 0.1) by lra.
    pose proof (SIN_bound (a * 2 + angleOffset p)) as Hs.
    assert (Hb : Rabs (sin (a * 2 + angleOffset p)) <= 1)
      by (apply Rabs_le; lra).
    pose proof (Rabs_pos (orbitRadius p)) as Hr.
    replace (0.1 * Rabs (orbitRadius p))
      with (1 * (0.1 * Rabs (orbitRadius p))) at 2 by ring.
    apply Rmult_le_compat_r; [lra | exact Hb].
Qed.

(** X15. Up to an expansion of 0.7 there is no jitter at all: the position
    is the orbital point scaled by [1 + 5 * expansion], so the particle is
    on the cylinder of radius [orbitRadius * (1 + 5 * expansion)]. *)
Theorem calm_below_threshold (p : Attributes) (t e : R) :
  e <= 0.7 ->
  position p t e = vscale (orbitalPos p t) (1 + e * 5)
  /\ vx (position p t e) * vx (position p t e)
     + vz (position p t e) * vz (position p t e)
     = (orbitRadius p * (1 + e * 5)) * (orbitRadius p * (1 + e * 5)).
Proof.
  intros He.
  assert (Hpos : position p t e = vscale (orbitalPos p t) (1 + e * 5)).
  { unfold position, finalPos, systemScale, chaosFactor, chaosThreshold.
    rewrite smoothstep_below by exact He.
    unfold mix, vadd, vscale. cbn [vx vy vz]. f_equal; ring. }
  split; [exact Hpos |]. rewrite Hpos.
  pose proof (orbitalPos_on_ring p t) as Hring.
  unfold vscale. cbn [vx vy vz]. nra.
Qed.

Lemma calm_below_threshold_witness :
  0.5 <= 0.7
  /\ position Sample.inner 1 0.5
     = vscale (orbitalPos Sample.inner 1) (1 + 0.5 * 5).
Proof.
  split; [lra |]. apply (calm_below_threshold Sample.inner 1 0.5). lra.
Defined.

(** X16. The jitter is bounded: for an expansion [e] in [0, 1] each
    coordinate of the blended point differs from the orbital point by at
    most [3 * e * chaosFactor e], hence by at most 3, before the scale is
    applied. *)
Theorem jitter_is_bounded (p : Attributes) (t e : R) :
  0 <= e <= 1 ->
  let c := chaosFactor e in
  Rabs (vx (finalPos p t e) - vx (orbitalPos p t)) <= 3 * e * c
  /\ Rabs (vy (finalPos p t e) - vy (orbitalPos p t)) <= 3 * e * c
  /\ Rabs (vz (finalPos p t e) - vz (orbitalPos p t)) <= 3 * e * c
  /\ 3 * e * c <= 3.
Proof.
  intros He c. pose proof (chaosFactor_range e) as Hc. fold c in Hc.
  assert (Hk : 0 <= 3 * e * c) by nra.
  assert (Hbound : forall n o : R,
             -1 <= n <= 1 ->
             Rabs (o * (1 - c) + (o + n * (e * 3)) * c - o) <= 3 * e * c).
  { intros n o Hn.
    replace (o * (1 - c) + (o + n * (e * 3)) * c - o)
      with (n * (3 * e * c)) by ring.
    rewrite Rabs_mult, (Rabs_pos_eq (3 * e * c)) by exact Hk.
    assert (Rabs n <= 1) by (apply Rabs_le; lra).
    replace (3 * e * c) with (1 * (3 * e * c)) at 2 by ring.
    apply Rmult_le_compat_r; assumption. }
  unfold finalPos, chaosPos, mix, vadd, vscale, noiseVec. fold c.
  cbn [vx vy vz].
  split; [apply Hbound, SIN_bound |].
  split; [apply Hbound, COS_bound |].
  split; [apply Hbound, SIN_bound |]. nra.
Qed.

Lemma jitter_is_bounded_witness :
  0 <= 1 <= 1
  /\ Rabs (vx (finalPos Sample.inner 2 1) - vx (orbitalPos Sample.inner 2))
     <= 3 * 1 * chaosFactor 1.
Proof.
  split; [lra |]. apply (jitter_is_bounded Sample.inner 2 1). lra.
Defined.

(** X17. Of two particles with the same positive base speed, the one on
    the smaller orbit turns faster, and both angular speeds are positive:
    the [+ 0.1] keeps the square root away from 0 for every radius
    [>= 0]. *)
Theorem inner_orbits_turn_faster (p q : Attributes) :
  0 < speed p ->
  speed q = speed p ->
  0 <= orbitRadius p ->
  orbitRadius p < orbitRadius q ->
  0 < orbitSpeed q < orbitSpeed p
  /\ orbitSpeed p <= speed p / sqrt 0.1.
Proof.
  intros Hs Heq Hp Hpq. unfold orbitSpeed. rewrite Heq.
  assert (H0 : 0 < sqrt 0.1) by (apply sqrt_lt_R0; lra).
  assert (H1 : sqrt 0.1 <= sqrt (orbitRadius p + 0.1))
    by (apply sqrt_le_1_alt; lra).
  assert (H2 : sqrt (orbitRadius p + 0.1) < sqrt (orbitRadius q + 0.1))
    by (apply sqrt_lt_1_alt; lra).
  unfold Rdiv. split; [split |].
  - apply Rmult_lt_0_compat; [exact Hs | apply Rinv_0_lt_compat; lra].
  - apply Rmult_lt_compat_l; [exact Hs |].
    apply Rinv_lt_contravar; [apply Rmult_lt_0_compat; lra | exact H2].
  - apply Rmult_le_compat_l; [lra |].
    apply Rinv_le_contravar; assumption.
Qed.

Lemma inner_orbits_turn_faster_witness :
  orbitSpeed Sample.outer < orbitSpeed Sample.inner.
Proof.
  apply (inner_orbits_turn_faster Sample.inner Sample.outer);
    simpl; lra.
Defined.

(** X18. The calm motion is periodic: a particle with non-zero angular
    speed [w] is back at the same orbital point after the time
    [4 * PI / w], whatever the time it is observed at. *)
Theorem orbit_is_periodic (p : Attributes) (t : R) :
  orbitSpeed p <> 0 ->
  orbitalPos p (t + 4 * PI / orbitSpeed p) = orbitalPos p t.
Proof.
  intros Hw.
  assert (Ha : currentAngle p (t + 4 * PI / orbitSpeed p)
               = currentAngle p t + 2 * INR 1 * PI).
  { unfold currentAngle. change (INR 1) with 1.
    assert (Hq : orbitSpeed p * (4 * PI / orbitSpeed p) = 4 * PI)
      by (field; exact Hw).
    replace (orbitSpeed p * (t + 4 * PI / orbitSpeed p) * 0.5)
      with (orbitSpeed p * t * 0.5
            + orbitSpeed p * (4 * PI / orbitSpeed p) * 0.5) by ring.
    rewrite Hq. lra. }
  unfold orbitalPos. cbv zeta. rewrite Ha, cos_period, sin_period.
  replace ((currentAngle p t + 2 * INR 1 * PI) * 2 + angleOffset p)
    with (currentAngle p t * 2 + angleOffset p + 2 * INR 2 * PI)
    by (change (INR 1) with 1; change (INR 2) with (1 + 1); ring).
  rewrite sin_period. reflexivity.
Qed.

Lemma orbitSpeed_inner_nonzero : orbitSpeed Sample.inner <> 0.
Proof.
  unfold orbitSpeed. cbn [speed orbitRadius Sample.inner].
  assert (0 < sqrt (4 + 0.1)) by (apply sqrt_lt_R0; lra).
  assert (0 < 2 / sqrt (4 + 0.1)) by (apply Rdiv_lt_0_compat; lra).
  lra.
Qed.

Lemma orbit_is_periodic_witness :
  orbitalPos Sample.inner (0 + 4 * PI / orbitSpeed Sample.inner)
  = orbitalPos Sample.inner 0.
Proof.
  apply (orbit_is_periodic Sample.inner 0 orbitSpeed_inner_nonzero).
Defined.

End ShaderMore.

Section FragmentShader.

Import SaturnParticles.

Lemma smoothstep_unit (e0 e1 v : R) : 0 <= smoothstep e0 e1 v <= 1.
Proof.
  unfold smoothstep. cbv zeta.
  pose proof (clamp_range ((v - e0) / (e1 - e0)) 0 1 ltac:(lra)) as Hc.
  set (t := clamp ((v - e0) / (e1 - e0)) 0 1) in *.
  pose proof (hermite_mono 0 t ltac:(lra) ltac:(lra) ltac:(lra)).
  pose proof (hermite_mono t 1 ltac:(lra) ltac:(lra) ltac:(lra)).
  lra.
Qed.

Lemma smoothstep_low (e0 e1 v : R) :
  e0 < e1 -> v <= e0 -> smoothstep e0 e1 v = 0.
Proof.
  intros He Hv. unfold smoothstep, clamp. cbv zeta.
  assert (Hq : (v - e0) / (e1 - e0) <= 0).
  { apply Rmult_le_reg_r with (e1 - e0); [lra |].
    unfold Rdiv. rewrite Rmult_assoc, Rinv_l; lra. }
  rewrite Rmax_right by exact Hq. rewrite Rmin_left by lra. ring.
Qed.

Lemma smoothstep_high (e0 e1 v : R) :
  e0 < e1 -> e1 <= v -> smoothstep e0 e1 v = 1.
Proof.
  intros He Hv. unfold smoothstep, clamp. cbv zeta.
  assert (Hq : 1 <= (v - e0) / (e1 - e0)).
  { apply Rmult_le_reg_r with (e1 - e0); [lra |].
    unfold Rdiv. rewrite Rmult_assoc, Rinv_l; lra. }
  rewrite Rmax_left by lra. rewrite Rmin_right by exact Hq. ring.
Qed.

Lemma smoothstep_mono_edges (e0 e1 u v : R) :
  e0 < e1 -> u <= v -> smoothstep e0 e1 u <= smoothstep e0 e1 v.
Proof.
  intros He Huv. unfold smoothstep. cbv zeta.
  assert (Hr : (u - e0) / (e1 - e0) <= (v - e0) / (e1 - e0)).
  { unfold Rdiv. apply Rmult_le_compat_r; [| lra].
    left. apply Rinv_0_lt_compat. lra. }
  pose proof (clamp_range ((u - e0) / (e1 - e0)) 0 1 ltac:(lra)).
  pose proof (clamp_range ((v - e0) / (e1 - e0)) 0 1 ltac:(lra)).
  pose proof (clamp_mono _ _ 0 1 Hr).
  apply hermite_mono; lra.
Qed.

Lemma fragment_kept (coord : vec2) (vColor : Color) (e : R) :
  radial coord <= 0.5 ->
  exists f, fragment coord vColor e = Some f
            /\ alpha f = 1 - smoothstep 0.3 0.5 (radial coord).
Proof.
  intros Hd. unfold fragment. cbv zeta. fold (radial coord).
  destruct (Rlt_dec 0.5 (radial coord)); [lra |].
  eexists. split; reflexivity.
Qed.

(** X20. The fragment shader draws a round, soft-edged sprite: a fragment
    is discarded exactly when it is farther than 0.5 from the sprite's
    centre; a fragment that is kept has an opacity in [0, 1], which is 1
    up to the distance 0.3, 0 at the rim, and never larger for a fragment
    farther out. *)
Theorem sprite_is_a_soft_disc (coord coord' : vec2) (vColor : Color)
        (e : R) :
  (fragment coord vColor e = None <-> 0.5 < radial coord)
  /\ forall f,
      fragment coord vColor e = Some f ->
      0 <= alpha f <= 1
      /\ (radial coord <= 0.3 -> alpha f = 1)
      /\ (radial coord = 0.5 -> alpha f = 0)
      /\ forall f',
          fragment coord' vColor e = Some f' ->
          radial coord <= radial coord' -> alpha f' <= alpha f.
Proof.
  split.
  - unfold fragment. cbv zeta. fold (radial coord).
    destruct (Rlt_dec 0.5 (radial coord)); split; intros H;
      try reflexivity; try discriminate; lra.
  - intros f Hf.
    assert (Hkept : forall c g, fragment c vColor e = Some g ->
                                radial c <= 0.5
                                /\ alpha g
                                   = 1 - smoothstep 0.3 0.5 (radial c)).
    { intros c g. unfold fragment. cbv zeta. fold (radial c).
      destruct (Rlt_dec 0.5 (radial c)); [discriminate |].
      intros H. inversion H; subst. cbn [alpha]. split; [lra | reflexivity]. }
    destruct (Hkept _ _ Hf) as [Hd Ha]. rewrite Ha.
    pose proof (smoothstep_unit 0.3 0.5 (radial coord)).
    split; [lra |]. split; [| split].
    + intros Hin. rewrite smoothstep_low by lra. ring.
    + intros Hrim. rewrite smoothstep_high by lra. ring.
    + intros f' Hf' Hle. destruct (Hkept _ _ Hf') as [_ Ha']. rewrite Ha'.
      pose proof (smoothstep_mono_edges 0.3 0.5 _ _ ltac:(lra) Hle). lra.
Qed.

(** X21. Brightness: for an expansion in [0, 1] and a colour channel [c]
    in [0, 1] (red, green or blue), the channel written by the fragment
    shader is at least [0.6 * c] and at most 2.6; up to an expansion of
    0.9 it is [c * (0.6 + 2 * expansion)], above 0.9 it is that value
    moved a fifth of the way toward 1. *)
Theorem fragment_brightness (coord : vec2) (vColor : Color) (e : R)
        (f : Fragment) (channel : Color -> R) :
  fragment coord vColor e = Some f ->
  channel = r \/ channel = g \/ channel = b ->
  0 <= e <= 1 ->
  0 <= channel vColor <= 1 ->
  let lit := channel vColor * (0.6 + e * 2) in
  0.6 * channel vColor <= channel (rgb f) <= 2.6
  /\ (e <= 0.9 -> channel (rgb f) = lit)
  /\ (0.9 < e -> channel (rgb f) = lit + 0.2 * (1 - lit)).
Proof.
  unfold fragment. cbv zeta. fold (radial coord).
  destruct (Rlt_dec 0.5 (radial coord)); [discriminate |].
  intros H Hch He Hc. inversion H; subst f. clear H. cbn [rgb].
  destruct (Rlt_dec 0.9 e) as [Hflash | Hcalm];
    destruct Hch as [-> | [-> | ->]];
    unfold mixColor, scaleColor; cbn [r g b];
    (split; [nra |]); split; intros; try lra; try reflexivity; ring.
Qed.

Lemma fragment_centre :
  fragment {| ux := 0.5; uy := 0.5 |} Sample.white 1
  = Some {| rgb := mixColor (scaleColor Sample.white (0.6 + 1 * 2))
                            {| r := 1; g := 1; b := 1 |} 0.2;
            alpha := 1 - smoothstep 0.3 0.5
                                    (length2 {| ux := 0.5 - 0.5;
                                                uy := 0.5 - 0.5 |}) |}.
Proof.
  unfold fragment. cbv zeta. cbn [ux uy].
  assert (Hd : length2 {| ux := 0.5 - 0.5; uy := 0.5 - 0.5 |} = 0).
  { unfold length2. cbn [ux uy].
    replace ((0.5 - 0.5) * (0.5 - 0.5) + (0.5 - 0.5) * (0.5 - 0.5))
      with 0 by ring.
    apply sqrt_0. }
  rewrite Hd.
  destruct (Rlt_dec 0.5 0); [lra |].
  destruct (Rlt_dec 0.9 1); [reflexivity | lra].
Qed.

Lemma fragment_brightness_witness :
  0 <= 1 <= 1 /\ 0 <= r Sample.white <= 1
  /\ exists f,
      fragment {| ux := 0.5; uy := 0.5 |} Sample.white 1 = Some f
      /\ 0.6 * r Sample.white <= r (rgb f) <= 2.6.
Proof.
  assert (Hc : 0 <= r Sample.white <= 1) by (simpl; lra).
  split; [lra | split; [exact Hc |]].
  eexists. split; [exact fragment_centre |].
  apply (fragment_brightness _ _ _ _ r fragment_centre
                             (or_introl eq_refl) ltac:(lra) Hc).
Defined.



End FragmentShader.

(** ** More on the population *)

Section PopulationMore.

Import SaturnParticles.

Variables colorCore colorRingInner colorRingOuter : Color.

Local Notation "'particle'" :=
  (SaturnParticles.particle colorCore colorRingInner colorRingOuter).
Local Notation "'particles'" :=
  (SaturnParticles.particles colorCore colorRingInner colorRingOuter).
Local Notation "'generate'" :=
  (SaturnParticles.generate colorCore colorRingInner colorRingOuter).

Lemma population_nth (src : Random.Source) (i : nat) :
  (i < COUNT)%nat ->
  nth_error (fst (generate src 0%nat)) i
  = Some (fst (particle i src (drawsBefore i))).
Proof.
  intros Hi.
  exact (particles_nth colorCore colorRingInner colorRingOuter
                       COUNT 0%nat src i Hi).
Qed.

(** What every iteration writes, core or ring. *)
Lemma particle_ranges (src : Random.Source) (i n : nat) :
  Random.in_unit src ->
  let p := fst (particle i src n) in
  0 <= angleOffset p < 2 * PI
  /\ 0 <= randomness p < 1
  /\ 0.2 <= size p < 1
  /\ 0.5 <= speed p <= 2
  /\ (0 <= orbitRadius p < 2.5
      \/ 4 <= orbitRadius p < 6
      \/ 6.5 <= orbitRadius p < 10).
Proof.
  intros Hsrc p. unfold p. pose proof PI_RGT_0 as Hpi.
  destruct (isCore i) eqn:Hi.
  - rewrite particle_core by exact Hi.
    cbn [fst angleOffset randomness size speed orbitRadius].
    pose proof (Hsrc (2 + n)%nat). pose proof (Hsrc (3 + n)%nat).
    pose proof (Hsrc (4 + n)%nat). pose proof (Hsrc (5 + n)%nat).
    pose proof (Hsrc (6 + n)%nat).
    repeat split; try lra; nra.
  - rewrite (particle_ring _ _ _ i src n Hi).
    cbn [fst angleOffset randomness size speed orbitRadius].
    pose proof (Hsrc n). pose proof (Hsrc (1 + n)%nat).
    pose proof (Hsrc (2 + n)%nat). pose proof (Hsrc (3 + n)%nat).
    pose proof (Hsrc (4 + n)%nat).
    destruct (Rlt_dec (src n) 0.3); [| destruct (Rlt_dec (src n) 0.4)];
      repeat split; try lra; nra.
Qed.

(** X23. Every particle of the population, core or ring, has a phase
    [angleOffset] in [0, 2 * PI), a [randomness] in [0, 1), a size in
    [0.2, 1) and a base speed in [0.5, 2]. *)
Theorem every_particle_attributes (src : Random.Source) (i : nat) :
  Random.in_unit src ->
  (i < COUNT)%nat ->
  exists p,
    nth_error (fst (generate src 0%nat)) i = Some p
    /\ 0 <= angleOffset p < 2 * PI
    /\ 0 <= randomness p < 1
    /\ 0.2 <= size p < 1
    /\ 0.5 <= speed p <= 2.
Proof.
  intros Hsrc Hi. eexists. split; [apply population_nth; exact Hi |].
  destruct (particle_ranges src i (drawsBefore i) Hsrc)
    as (Ha & Hr & Hs & Hv & _).
  repeat split; first [apply Ha | apply Hr | apply Hs | apply Hv].
Qed.

(** X24. No particle is ever placed between the core and the rings or in
    the division between the rings: every [orbitRadius] is in [0, 2.5),
    [4, 6) or [6.5, 10). With it the shader's angular speed is defined
    and positive for every particle, and at most [speed / sqrt 0.1]. *)
Theorem every_orbit_is_well_defined (src : Random.Source) (i : nat) :
  Random.in_unit src ->
  (i < COUNT)%nat ->
  exists p,
    nth_error (fst (generate src 0%nat)) i = Some p
    /\ (0 <= orbitRadius p < 2.5
        \/ 4 <= orbitRadius p < 6
        \/ 6.5 <= orbitRadius p < 10)
    /\ 0.1 <= orbitRadius p + 0.1
    /\ 0 < orbitSpeed p <= speed p / sqrt 0.1.
Proof.
  intros Hsrc Hi. eexists. split; [apply population_nth; exact Hi |].
  destruct (particle_ranges src i (drawsBefore i) Hsrc)
    as (_ & _ & _ & Hv & Hrad).
  set (p := fst (particle i src (drawsBefore i))) in *.
  assert (Hr : 0 <= orbitRadius p) by (destruct Hrad as [H | [H | H]]; lra).
  split; [exact Hrad |]. split; [lra |].
  unfold orbitSpeed.
  assert (H0 : 0 < sqrt 0.1) by (apply sqrt_lt_R0; lra).
  assert (H1 : sqrt 0.1 <= sqrt (orbitRadius p + 0.1))
    by (apply sqrt_le_1_alt; lra).
  unfold Rdiv. split.
  - apply Rmult_lt_0_compat; [lra | apply Rinv_0_lt_compat; lra].
  - apply Rmult_le_compat_l; [lra |].
    apply Rinv_le_contravar; assumption.
Qed.

Lemma between_endpoints (u v w : R) :
  0 <= w <= 1 -> Rmin u v <= u + (v - u) * w <= Rmax u v.
Proof.
  intros Hw. unfold Rmin, Rmax. destruct (Rle_dec u v); split; nra.
Qed.

(** X25. The colour of a ring particle never leaves the range spanned by
    the two ring colours: its interpolation parameter
    [(orbitRadius - 4) / 6] is in [0, 1), so each channel lies between
    the inner and the outer colour's channel. *)
Theorem ring_colour_between_endpoints (src : Random.Source) (i : nat) :
  Random.in_unit src ->
  (3000 <= i < COUNT)%nat ->
  exists p,
    nth_error (fst (generate src 0%nat)) i = Some p
    /\ 0 <= (orbitRadius p - 4) / 6 < 1
    /\ Rmin (r colorRingInner) (r colorRingOuter) <= r (color p)
       <= Rmax (r colorRingInner) (r colorRingOuter)
    /\ Rmin (g colorRingInner) (g colorRingOuter) <= g (color p)
       <= Rmax (g colorRingInner) (g colorRingOuter)
    /\ Rmin (b colorRingInner) (b colorRingOuter) <= b (color p)
       <= Rmax (b colorRingInner) (b colorRingOuter).
Proof.
  intros Hsrc [Hlo Hhi]. eexists.
  split; [apply population_nth; exact Hhi |].
  assert (Hring : isCore i = false) by (apply isCore_false; exact Hlo).
  rewrite (particle_ring _ _ _ i src (drawsBefore i) Hring).
  cbn [fst orbitRadius color].
  pose proof (Hsrc (drawsBefore i)) as Hu.
  pose proof (Hsrc (1 + drawsBefore i)%nat) as Hv.
  match goal with
  | |- context [lerpColors _ _ ((?rad - 4) / 6)] => set (radius := rad)
  end.
  assert (Hrad : 4 <= radius < 10).
  { unfold radius. destruct (Rlt_dec (src (drawsBefore i)) 0.3); [lra |].
    destruct (Rlt_dec (src (drawsBefore i)) 0.4); lra. }
  assert (Hw : 0 <= (radius - 4) / 6 < 1) by lra.
  split; [exact Hw |].
  unfold lerpColors. cbn [r g b].
  repeat split; apply between_endpoints; lra.
Qed.

Lemma drawsBefore_S (i : nat) :
  drawsBefore (S i) = (drawsBefore i + draws i)%nat.
Proof. reflexivity. Qed.

Lemma drawsBefore_mono (i j : nat) :
  (i <= j)%nat -> (drawsBefore i <= drawsBefore j)%nat.
Proof.
  induction 1 as [| j Hle IH]; [lia |]. rewrite drawsBefore_S. lia.
Qed.

Lemma particles_counter (n : nat) :
  forall from src,
    snd (particles n from src (drawsBefore from))
    = drawsBefore (from + n).
Proof.
  induction n as [| n IH]; intros from src.
  - cbn [SaturnParticles.particles Random.ret snd]. f_equal. lia.
  - cbn [SaturnParticles.particles]. unfold Random.bind.
    pose proof (particle_draws colorCore colorRingInner colorRingOuter
                               from src) as Hd.
    destruct (particle from src (drawsBefore from)) as [a c1].
    cbn [snd] in Hd. subst c1.
    specialize (IH (S from) src).
    destruct (particles n (S from) src (drawsBefore (S from)))
      as [rest c2].
    cbn [snd Random.ret] in *. rewrite IH. f_equal. lia.
Qed.

(** An iteration reads the random source only at the calls it makes. *)
Lemma particle_ext (i n : nat) (src src' : Random.Source) :
  (forall k, (n <= k < n + draws i)%nat -> src k = src' k) ->
  particle i src n = particle i src' n.
Proof.
  unfold draws. intros Hext. destruct (isCore i) eqn:Hi.
  - rewrite !particle_core by exact Hi.
    rewrite (Hext (2 + n)%nat), (Hext (3 + n)%nat), (Hext (4 + n)%nat),
      (Hext (5 + n)%nat), (Hext (6 + n)%nat) by lia.
    reflexivity.
  - rewrite (particle_ring _ _ _ i src n Hi),
      (particle_ring _ _ _ i src' n Hi).
    rewrite (Hext n), (Hext (1 + n)%nat), (Hext (2 + n)%nat),
      (Hext (3 + n)%nat), (Hext (4 + n)%nat) by lia.
    reflexivity.
Qed.

Lemma particles_ext (n : nat) :
  forall from src src',
    (forall k, (drawsBefore from <= k < drawsBefore (from + n))%nat ->
               src k = src' k) ->
    particles n from src (drawsBefore from)
    = particles n from src' (drawsBefore from).
Proof.
  induction n as [| n IH]; intros from src src' Hext; [reflexivity |].
  cbn [SaturnParticles.particles]. unfold Random.bind.
  assert (Hp : particle from src (drawsBefore from)
               = particle from src' (drawsBefore from)).
  { apply particle_ext. intros k Hk. apply Hext.
    pose proof (drawsBefore_mono (S from) (from + S n) ltac:(lia)) as Hm.
    rewrite drawsBefore_S in Hm. lia. }
  pose proof (particle_draws colorCore colorRingInner colorRingOuter
                             from src) as Hd.
  rewrite <- Hp.
  destruct (particle from src (drawsBefore from)) as [a c1].
  cbn [snd] in Hd. subst c1.
  rewrite (IH (S from) src src'); [reflexivity |].
  intros k Hk. apply Hext.
  replace (from + S n)%nat with (S from + n)%nat by lia.
  pose proof (drawsBefore_mono from (S from) ltac:(lia)). lia.
Qed.

(** X26. Building the population makes exactly 81000 calls of
    [Math.random] (seven for each of the 3000 core particles, five for
    each of the 12000 ring particles), and the population depends on
    nothing else: two random sources that agree on their first 81000
    numbers give the same population. *)
Theorem population_uses_81000_draws (src src' : Random.Source) :
  snd (generate src 0%nat) = drawsBefore COUNT
  /\ Z.of_nat (drawsBefore COUNT) = 81000%Z
  /\ ((forall k, (k < drawsBefore COUNT)%nat -> src k = src' k) ->
      fst (generate src 0%nat) = fst (generate src' 0%nat)).
Proof.
  split; [exact (particles_counter COUNT 0%nat src) |].
  split.
  - rewrite drawsBefore_ring
      by (apply Nat.leb_le; vm_compute; reflexivity).
    vm_compute. reflexivity.
  - intros Hext. unfold SaturnParticles.generate.
    change 0%nat with (drawsBefore 0) at 2 4.
    rewrite (particles_ext COUNT 0%nat src src'); [reflexivity |].
    intros k [_ Hk]. apply Hext. exact Hk.
Qed.

End PopulationMore.

Section PopulationMoreWitnesses.

Import SaturnParticles.

Lemma every_particle_attributes_witness :
  Random.in_unit Sample.halves /\ (3000 < COUNT)%nat
  /\ exists p,
      nth_error (fst (generate Sample.white Sample.white Sample.black
                               Sample.halves 0%nat)) 3000 = Some p
      /\ 0 <= angleOffset p < 2 * PI.
Proof.
  split; [exact in_unit_halves | split; [exact ring_index_in_range |]].
  destruct (every_particle_attributes
              Sample.white Sample.white Sample.black Sample.halves 3000
              in_unit_halves ring_index_in_range)
    as (p & Hp & Ha & _).
  exists p. split; assumption.
Defined.

Lemma every_orbit_is_well_defined_witness :
  Random.in_unit Sample.halves /\ (3000 < COUNT)%nat
  /\ exists p,
      nth_error (fst (generate Sample.white Sample.white Sample.black
                               Sample.halves 0%nat)) 3000 = Some p
      /\ 0 < orbitSpeed p.
Proof.
  split; [exact in_unit_halves | split; [exact ring_index_in_range |]].
  destruct (every_orbit_is_well_defined
              Sample.white Sample.white Sample.black Sample.halves 3000
              in_unit_halves ring_index_in_range)
    as (p & Hp & _ & _ & Hs).
  exists p. split; [exact Hp | apply Hs].
Defined.

Lemma ring_colour_between_endpoints_witness :
  Random.in_unit Sample.halves /\ (3000 <= 3000 < COUNT)%nat
  /\ exists p,
      nth_error (fst (generate Sample.white Sample.white Sample.black
                               Sample.halves 0%nat)) 3000 = Some p
      /\ Rmin (r Sample.white) (r Sample.black) <= r (color p)
         <= Rmax (r Sample.white) (r Sample.black).
Proof.
  assert (Hi : (3000 <= 3000 < COUNT)%nat)
    by (split; [lia | exact ring_index_in_range]).
  split; [exact in_unit_halves | split; [exact Hi |]].
  destruct (ring_colour_between_endpoints
              Sample.white Sample.white Sample.black Sample.halves 3000
              in_unit_halves Hi)
    as (p & Hp & _ & Hr & _).
  exists p. split; assumption.
Defined.

End PopulationMoreWitnesses.

(** ** The background stars *)

Section Stars.

Lemma fill_length (n : nat) :
  forall src c, length (fst (StarField.fill n src c)) = n.
Proof.
  induction n as [| n IH]; intros src c; [reflexivity |].
  cbn [StarField.fill]. unfold Random.bind, Random.random.
  specialize (IH src (S c)).
  destruct (StarField.fill n src (S c)) as [rest c'].
  cbn [fst Random.ret length] in *. now rewrite IH.
Qed.

Lemma fill_counter (n : nat) :
  forall src c, snd (StarField.fill n src c) = (c + n)%nat.
Proof.
  induction n as [| n IH]; intros src c.
  - cbn [StarField.fill Random.ret snd]. lia.
  - cbn [StarField.fill]. unfold Random.bind, Random.random.
    specialize (IH src (S c)).
    destruct (StarField.fill n src (S c)) as [rest c'].
    cbn [snd Random.ret] in *. lia.
Qed.

Lemma fill_nth (n : nat) :
  forall src c k,
    (k < n)%nat ->
    nth_error (fst (StarField.fill n src c)) k
    = Some ((src (c + k)%nat - 0.5) * 100).
Proof.
  induction n as [| n IH]; intros src c k Hk; [lia |].
  cbn [StarField.fill]. unfold Random.bind, Random.random.
  specialize (IH src (S c)).
  destruct (StarField.fill n src (S c)) as [rest c'].
  cbn [fst Random.ret] in *. destruct k as [| k].
  - cbn [nth_error]. rewrite Nat.add_0_r. reflexivity.
  - cbn [nth_error]. rewrite IH by lia.
    replace (S c + k)%nat with (c + S k)%nat by lia. reflexivity.
Qed.

(** X27. The star buffer has 3000 cells, that is 1000 points of three
    coordinates, filled from 3000 successive calls of [Math.random]; for
    numbers drawn in [0, 1) every coordinate is in [-50, 50), so every
    star is inside the cube of side 100 around the origin. *)
Theorem stars_fill_the_cube (src : Random.Source) (c k : nat) :
  Random.in_unit src ->
  (k < 3000)%nat ->
  length (fst (StarField.sphere src c)) = (3 * 1000)%nat
  /\ snd (StarField.sphere src c) = (c + 3000)%nat
  /\ exists v,
      nth_error (fst (StarField.sphere src c)) k = Some v
      /\ v = (src (c + k)%nat - 0.5) * 100
      /\ -50 <= v < 50.
Proof.
  intros Hsrc Hk. unfold StarField.sphere.
  split; [rewrite fill_length; reflexivity |].
  split; [apply fill_counter |].
  eexists. split; [apply fill_nth; exact Hk |].
  split; [reflexivity |].
  pose proof (Hsrc (c + k)%nat). lra.
Qed.

Lemma stars_fill_the_cube_witness :
  Random.in_unit Sample.halves /\ (7 < 3000)%nat
  /\ exists v,
      nth_error (fst (StarField.sphere Sample.halves 0%nat)) 7 = Some v
      /\ -50 <= v < 50.
Proof.
  assert (Hk : (7 < 3000)%nat) by lia.
  split; [exact in_unit_halves | split; [exact Hk |]].
  destruct (stars_fill_the_cube Sample.halves 0%nat 7 in_unit_halves Hk)
    as (_ & _ & v & Hv & _ & Hr).
  exists v. split; assumption.
Defined.

Lemma frames_None (deltas : list R) : StarField.frames None deltas = None.
Proof.
  unfold StarField.frames. induction deltas as [| d rest IH];
    [reflexivity | exact IH].
Qed.

(** X28. The star field turns at a rate that does not depend on the frame
    rate: after any sequence of frames the rotation about x has decreased
    by a fiftieth and the rotation about y by a sixtieth of the total time
    elapsed; while the points object is not mounted nothing happens. *)
Theorem stars_turn_with_elapsed_time
        (rot : StarField.Rotation) (deltas : list R) :
  let elapsed := fold_right Rplus 0 deltas in
  StarField.frames (Some rot) deltas
  = Some {| StarField.rotationX := StarField.rotationX rot - elapsed / 50;
            StarField.rotationY := StarField.rotationY rot - elapsed / 60 |}
  /\ StarField.frames None deltas = None.
Proof.
  intros elapsed. split; [| apply frames_None].
  unfold elapsed, StarField.frames. clear elapsed. revert rot.
  induction deltas as [| d rest IH]; intros rot.
  - cbn [fold_left fold_right]. destruct rot as [rx ry].
    cbn [StarField.rotationX StarField.rotationY].
    f_equal. f_equal; lra.
  - cbn [fold_left fold_right StarField.useFrame]. rewrite IH.
    cbn [StarField.rotationX StarField.rotationY].
    f_equal. f_equal; lra.
Qed.

End Stars.
